(** * Release-validation driver (RelVal/o2dpg_release_validation.py)

    Shallow embedding of the Python driver that wraps the ReleaseValidation
    ROOT macro.  Integers are [Z]; a Python float is the rational value of
    the binary64 number it holds, and [int / int] is the correctly rounded
    binary64 quotient, computed exactly below.  Exceptions raised by the
    code are [None] in an [option] or [Raise] in the state monad;
    filesystem, glob, ROOT and child processes enter through a record of
    the outside world. *)

From Stdlib Require Import List Bool Arith Lia ZArith QArith String Ascii.
From Stdlib Require Import Sorting.Sorted Sorting.Permutation Qabs.
Import ListNotations.
Open Scope string_scope.

(* ------------------------------------------------------------------ *)
(** ** Python helpers *)

(** *** Binary64 rounding *)

(** [floor(log2(n / d))] for [n, d > 0]. *)
Definition flog2_q (n d : Z) : Z :=
  let k0 := (Z.log2 n - Z.log2 d)%Z in
  if (0 <=? k0)%Z then (if (d * 2 ^ k0 <=? n)%Z then k0 else (k0 - 1)%Z)
  else (if (d <=? n * 2 ^ (- k0))%Z then k0 else (k0 - 1)%Z).

(** [N / D] rounded to the nearest integer, ties to even ([D > 0]). *)
Definition round_half_even (N D : Z) : Z :=
  let q := (N / D)%Z in
  let r := (N mod D)%Z in
  match Z.compare (2 * r) D with
  | Lt => q
  | Gt => (q + 1)%Z
  | Eq => if Z.even q then q else (q + 1)%Z
  end.

(** The binary64 number nearest to [n / d] ([n >= 0], [d > 0]), ties to
    even: 53 significant bits, subnormal spacing [2^-1074] at the bottom.
    The overflow to infinity is not taken here (see [py_truediv]). *)
Definition round_div (n d : Z) : Q :=
  if (n =? 0)%Z then 0%Q else
  let k := flog2_q n d in
  let s := Z.min (52 - k) 1074 in
  if (0 <=? s)%Z then Qmake (round_half_even (n * 2 ^ s) d) (Z.to_pos (2 ^ s))
  else inject_Z (round_half_even n (d * 2 ^ (- s)) * 2 ^ (- s)).

(** The value of the float [a / b] for [b <> 0]. *)
Definition float_div (a b : Z) : Q :=
  let v := round_div (Z.abs a) (Z.abs b) in
  if xorb (a <? 0)%Z (b <? 0)%Z then Qopp v else v.

(** A float literal or the float [p / q] of two ints: the nearest binary64. *)
Definition float_of_Q (x : Q) : Q := float_div (Qnum x) (Zpos (Qden x)).

(** [a / b] on Python ints: [ZeroDivisionError] when [b = 0],
    [OverflowError] when the rounded quotient is too large for a float. *)
Definition py_truediv (a b : Z) : option Q :=
  if (b =? 0)%Z then None
  else if Qle_bool (inject_Z (2 ^ 1024)) (Qabs (float_div a b)) then None
  else Some (float_div a b).

(** [x > y] on numbers. *)
Definition py_gt (x y : Q) : bool := negb (Qle_bool x y).

(** [itertools.combinations(range(n), 2)], in its lexicographic order. *)
Definition combinations2 (n : nat) : list (nat * nat) :=
  flat_map (fun i => map (fun j => (i, j)) (seq (S i) (n - S i))) (seq 0 n).

(** [s.startswith(p)] *)
Definition startswith (s p : string) : bool := String.prefix p s.

(** [g in s] for strings (substring test). *)
Fixpoint contains (g s : string) : bool :=
  String.prefix g s ||
  match s with
  | EmptyString => false
  | String _ s' => contains g s'
  end.

(** [s.endswith("/")] *)
Fixpoint ends_with_slash (s : string) : bool :=
  match s with
  | EmptyString => false
  | String c EmptyString => Ascii.eqb c "/"%char
  | String _ s' => ends_with_slash s'
  end.

(** [os.path.join(a, b)] (POSIX). *)
Definition join (a b : string) : string :=
  if startswith b "/" then b
  else if (a =? "")%string || ends_with_slash a then a ++ b
  else a ++ "/" ++ b.

(** [s.lstrip("/")] *)
Fixpoint lstrip_slash (s : string) : string :=
  match s with
  | String c s' => if Ascii.eqb c "/"%char then lstrip_slash s' else s
  | EmptyString => EmptyString
  end.

(** [s[k:]] *)
Definition drop_chars (k : nat) (s : string) : string :=
  String.substring k (String.length s - k) s.

(** [list.sort()] on strings (code-point order), as an insertion sort. *)
Fixpoint insert_sorted (x : string) (l : list string) : list string :=
  match l with
  | [] => [x]
  | y :: l' => if String.leb x y then x :: l else y :: insert_sorted x l'
  end.

Definition sort_strings (l : list string) : list string :=
  fold_right insert_sorted [] l.

(** [list(set(a) & set(b))]: the members of [a] also in [b], each once.
    The iteration order of a Python set is unspecified; every consumer in
    the source sorts afterwards or is order-insensitive. *)
Fixpoint dedup (l : list string) : list string :=
  match l with
  | [] => []
  | x :: l' => if existsb (String.eqb x) l' then dedup l' else x :: dedup l'
  end.

Definition set_inter (a b : list string) : list string :=
  dedup (filter (fun x => existsb (String.eqb x) b) a).

(** *** [fnmatch] patterns, as [fnmatch.translate] reads them *)

Inductive ftok :=
| FStar                                           (* [*] *)
| FAny                                            (* [?] *)
| FClass (neg : bool) (items : list (ascii * ascii))  (* [[...]], [[!...]] *)
| FLit (c : ascii).

(** The members of a bracket expression: [a-b] is a range (empty when
    [a > b], as the ranges [fnmatch] drops), any other character stands
    for itself. *)
Fixpoint class_items (l : list ascii) : list (ascii * ascii) :=
  match l with
  | [] => []
  | a :: l' =>
      match l' with
      | c :: b :: rest =>
          if Ascii.eqb c "-"%char then (a, b) :: class_items rest
          else (a, a) :: class_items l'
      | _ => (a, a) :: class_items l'
      end
  end.

(** The text up to the next [']'], and what follows it. *)
Fixpoint find_close (l : list ascii) : option (list ascii * list ascii) :=
  match l with
  | [] => None
  | c :: l' =>
      if Ascii.eqb c "]"%char then Some ([], l')
      else match find_close l' with
           | Some (inside, rest) => Some (c :: inside, rest)
           | None => None
           end
  end.

(** After a ['[']: a leading ['!'] and then a leading [']'] belong to the
    set; [None] when no closing [']'] follows (the ['['] is literal). *)
Definition class_body (l : list ascii) : option (bool * list ascii * list ascii) :=
  let '(neg, l1) := match l with
                    | c :: l' => if Ascii.eqb c "!"%char then (true, l') else (false, l)
                    | [] => (false, l)
                    end in
  let '(pre, l2) := match l1 with
                    | c :: l' => if Ascii.eqb c "]"%char then ([c], l') else ([], l1)
                    | [] => ([], l1)
                    end in
  match find_close l2 with
  | Some (inside, rest) => Some (neg, (pre ++ inside)%list, rest)
  | None => None
  end.

Fixpoint ftokens (fuel : nat) (p : list ascii) : list ftok :=
  match fuel with
  | O => []
  | S f =>
      match p with
      | [] => []
      | c :: p' =>
          if Ascii.eqb c "*"%char then FStar :: ftokens f p'
          else if Ascii.eqb c "?"%char then FAny :: ftokens f p'
          else if Ascii.eqb c "["%char then
            match class_body p' with
            | Some (neg, stuff, rest) => FClass neg (class_items stuff) :: ftokens f rest
            | None => FLit c :: ftokens f p'
            end
          else FLit c :: ftokens f p'
      end
  end.

Definition in_items (c : ascii) (its : list (ascii * ascii)) : bool :=
  existsb (fun '(lo, hi) => Nat.leb (nat_of_ascii lo) (nat_of_ascii c) && Nat.leb (nat_of_ascii c) (nat_of_ascii hi))
    its.

Fixpoint fmatch (ts : list ftok) (n : list ascii) : bool :=
  match ts with
  | [] => match n with [] => true | _ => false end
  | FStar :: ts' =>
      (fix go (n : list ascii) : bool :=
         fmatch ts' n || match n with [] => false | _ :: n' => go n' end) n
  | FAny :: ts' => match n with [] => false | _ :: n' => fmatch ts' n' end
  | FClass neg its :: ts' =>
      match n with [] => false | c :: n' => xorb neg (in_items c its) && fmatch ts' n' end
  | FLit c :: ts' =>
      match n with [] => false | c' :: n' => Ascii.eqb c c' && fmatch ts' n' end
  end.

(** [fnmatch.fnmatch(name, pat)] on POSIX (case-sensitive, whole name). *)
Definition fnmatch (name pat : string) : bool :=
  let p := list_ascii_of_string pat in
  fmatch (ftokens (List.length p) p) (list_ascii_of_string name).

(** [glob.has_magic] *)
Definition has_magic (s : string) : bool :=
  existsb (fun c => Ascii.eqb c "*"%char || Ascii.eqb c "?"%char || Ascii.eqb c "["%char)
    (list_ascii_of_string s).

Definition is_slash (c : ascii) : bool := Ascii.eqb c "/"%char.

(** The characters before the first ['/'] and the rest. *)
Fixpoint span_nonslash (l : list ascii) : list ascii * list ascii :=
  match l with
  | [] => ([], [])
  | c :: l' => if is_slash c then ([], l) else let '(a, b) := span_nonslash l' in (c :: a, b)
  end.

Fixpoint drop_slashes (l : list ascii) : list ascii :=
  match l with
  | c :: l' => if is_slash c then drop_slashes l' else l
  | [] => []
  end.

(** [os.path.split(p)] (POSIX): head without its trailing slashes unless
    it is made of slashes only, and tail. *)
Definition path_split (p : string) : string * string :=
  let '(tl_rev, head_rev) := span_nonslash (rev (list_ascii_of_string p)) in
  let head := if forallb is_slash head_rev then rev head_rev else rev (drop_slashes head_rev) in
  (string_of_list_ascii head, string_of_list_ascii (rev tl_rev)).

(** *** [shlex.split] (POSIX mode, no comments) *)

Definition is_ws (c : ascii) : bool :=
  Ascii.eqb c " "%char || Ascii.eqb c "009"%char || Ascii.eqb c "013"%char
  || Ascii.eqb c "010"%char.
Definition is_quote (c : ascii) : bool := Ascii.eqb c "'"%char || Ascii.eqb c "034"%char.
Definition is_bslash (c : ascii) : bool := Ascii.eqb c "092"%char.

(** The states of [shlex.read_token]: between words ([' ']), in a word
    (['a']), inside quotes, after a backslash (in a word or inside double
    quotes). *)
Inductive lex_state := LWs | LWord | LQuote (q : ascii) | LEsc (in_dq : bool).

(** Tokens are kept reversed while they are read.  [None] is the
    [ValueError] of an unclosed quote or a trailing backslash. *)
Fixpoint shlex_go (cs : list ascii) (st : lex_state) (tok : list ascii)
  : option (list (list ascii)) :=
  match cs with
  | [] => match st with
          | LWs => Some []
          | LWord => Some [rev tok]
          | _ => None
          end
  | c :: cs' =>
      match st with
      | LWs =>
          if is_ws c then shlex_go cs' LWs []
          else if is_bslash c then shlex_go cs' (LEsc false) []
          else if is_quote c then shlex_go cs' (LQuote c) []
          else shlex_go cs' LWord [c]
      | LWord =>
          if is_ws c then
            match shlex_go cs' LWs [] with
            | Some ws => Some (rev tok :: ws)
            | None => None
            end
          else if is_quote c then shlex_go cs' (LQuote c) tok
          else if is_bslash c then shlex_go cs' (LEsc false) tok
          else shlex_go cs' LWord (c :: tok)
      | LQuote q =>
          if Ascii.eqb c q then shlex_go cs' LWord tok
          else if is_bslash c && Ascii.eqb q "034"%char then shlex_go cs' (LEsc true) tok
          else shlex_go cs' (LQuote q) (c :: tok)
      | LEsc false => shlex_go cs' LWord (c :: tok)
      | LEsc true =>
          shlex_go cs' (LQuote "034"%char)
            (if is_bslash c || Ascii.eqb c "034"%char then c :: tok else c :: "092"%char :: tok)
      end
  end.

(** [shlex.split(s)] *)
Definition shlex_split (s : string) : option (list string) :=
  match shlex_go (list_ascii_of_string s) LWs [] with
  | Some ws => Some (map string_of_list_ascii ws)
  | None => None
  end.


(** *** Text formatting *)

Fixpoint digits_rev (fuel : nat) (n : N) : list ascii :=
  match fuel with
  | O => []
  | S f =>
      let c := ascii_of_N (48 + N.modulo n 10) in
      if (n <? 10)%N then [c] else c :: digits_rev f (N.div n 10)
  end.

(** [str(n)] of an int. *)
Definition str_Z (z : Z) : string :=
  let ds := string_of_list_ascii (rev (digits_rev (S (N.size_nat (Z.abs_N z))) (Z.abs_N z))) in
  if (z <? 0)%Z then "-" ++ ds else ds.

Definition str_nat (n : nat) : string := str_Z (Z.of_nat n).

(** [f"{s:<{w}}"] *)
Definition ljust (s : string) (w : nat) : string :=
  s ++ string_of_list_ascii (repeat " "%char (w - String.length s)).

(** [str()] of a list of pairs of ints. *)
Definition repr_pairs (l : list (nat * nat)) : string :=
  "[" ++ String.concat ", " (map (fun '(i, j) => "(" ++ str_nat i ++ ", " ++ str_nat j ++ ")") l)
  ++ "]".

Definition nl : string := String "010"%char EmptyString.

(* ------------------------------------------------------------------ *)
(** ** SizeAuditor: [exceeding_difference_thresh] *)

(** One iteration of the loop body: [None] when the division raises,
    otherwise whether the pair is appended.  The condition is written as
    in the source, [diff / sizes[i2] > threshold or diff / sizes[i2] > threshold],
    with the short-circuit of [or]. *)
Definition edt_pair (sizes : list Z) (threshold : Q) (i1 i2 : nat) : option bool :=
  let diff := Z.abs (nth i1 sizes 0 - nth i2 sizes 0)%Z in
  match py_truediv diff (nth i2 sizes 0%Z) with
  | None => None
  | Some q1 =>
      if py_gt q1 threshold then Some true
      else match py_truediv diff (nth i2 sizes 0%Z) with
           | None => None
           | Some q2 => Some (py_gt q2 threshold)
           end
  end.

Fixpoint edt_loop (sizes : list Z) (threshold : Q) (pairs : list (nat * nat))
  : option (list (nat * nat)) :=
  match pairs with
  | [] => Some []
  | (i1, i2) :: ps =>
      match edt_pair sizes threshold i1 i2 with
      | None => None
      | Some b =>
          match edt_loop sizes threshold ps with
          | None => None
          | Some r => Some (if b then (i1, i2) :: r else r)
          end
      end
  end.

Definition exceeding_difference_thresh (sizes : list Z) (threshold : Q)
  : option (list (nat * nat)) :=
  edt_loop sizes threshold (combinations2 (List.length sizes)).

(** The float [diff / sizes[i2]] the source computes for the pair [(i, j)]
    (when the division does not raise). *)
Definition rel_diff (sizes : list Z) (i j : nat) : Q :=
  float_div (Z.abs (nth i sizes 0%Z - nth j sizes 0%Z)) (nth j sizes 0%Z).

(** The division of the pair [(i, j)] does not raise. *)
Definition pair_ok (sizes : list Z) (i j : nat) : bool :=
  negb (nth j sizes 0%Z =? 0)%Z &&
  negb (Qle_bool (inject_Z (2 ^ 1024)%Z) (Qabs (rel_diff sizes i j))).


(* ------------------------------------------------------------------ *)
(** ** The environment of the driver *)

(** What a path is on the filesystem before the run. *)
Inductive node := NFile | NDir (entries : list string) | NMissing.

(** A JSON [test_summary] object as read back by [json.load]: severity
    label to list of histogram names; a Python dict, keys are unique. *)
Definition tsummary := list (string * list string).

(** [d.get(k)] *)
Fixpoint dict_get (d : tsummary) (k : string) : option (list string) :=
  match d with
  | [] => None
  | (k', v) :: d' => if (k =? k')%string then Some v else dict_get d' k
  end.

(** Everything the script gets from outside: the filesystem, [glob],
    [abspath], file sizes, the JSON files written by the ROOT macro, the
    exit status of the child process, and the ROOT [TChain] behaviour. *)
Record env := mk_env {
  fs0 : string -> node;
  (** [glob(f"{d}/**/{pattern}", recursive=True)] *)
  glob_rec : string -> string -> list string;
  abspath : string -> string;
  (** [Path(p).stat().st_size] *)
  file_size : string -> Z;
  (** [json.load(open(p))["test_summary"]]; [None] when that raises *)
  read_test_summary : string -> option tsummary;
  (** exit status of the child spawned with an argument vector in a cwd *)
  child_status : list string -> string -> Z;
  (** [TChain.GetListOfLeaves()] of a chain (files, tree name):
      pairs (name, type name) *)
  chain_leaves : list string -> string -> list (string * string);
  (** [TChain.Draw(varexp)] return value of a chain (files, tree name) *)
  chain_draw : list string -> string -> string -> Z;
  (** [TFile.Open(path, "RECREATE")] yields a usable file *)
  root_open_ok : string -> bool;
  (** [environ["O2DPG_ROOT"]] *)
  O2DPG_ROOT : string;
  (** [os.makedirs(p)] succeeds (no [PermissionError], no
      [FileExistsError] on a dangling symlink, ...) *)
  can_makedirs : string -> bool;
  (** [open(p, "w")] succeeds once the parent directory exists *)
  write_ok : string -> bool;
  (** [str()] of a float *)
  float_repr : Q -> string;
  (** the iteration order of [list(set(a) & set(b))]: some order of the
      common elements, not fixed by the language *)
  inter_order : list string -> list string -> list string;
  inter_order_perm : forall a b, Permutation (inter_order a b) (set_inter a b)
}.

(** The parsed command line of [rel-val]; the float options are kept as
    the text [str()] renders them with, which is all the script uses. *)
Record args := mk_args {
  input : string * string;
  test : string;
  chi2_value : string;
  rel_mean_diff : string;
  rel_entries_diff : string;
  select_critical : bool;
  no_plots : bool;
  with_hits : bool;
  with_tpctracks : bool;
  with_kine : bool;
  with_analysis : bool;
  with_qc : bool;
  detectors : list string;
  output : string
}.

Inductive category := Hits | TPCTracks | Kine | Analysis | QC.

(** Observable effects, in the order they happen.  [EnterCategory] is a
    ghost marker for the start of the [if args.with_...:] block of a
    category; everything else is an effect of the source. *)
Inductive event :=
| Makedirs (d : string)
| Print (msg : string)
| Spawn (argv : list string) (cwd : string)
| Wait (status : Z)
| MakeHistograms (files1 files2 : list string) (out1 out2 treename : string)
| WriteHist (file hname : string)
| CloseFile (file : string)
| WriteJson (path : string)
| EnterCategory (c : category).

(** Python values returned by the entry points. *)
Inductive pyval := PyNone | PyInt (z : Z) | PyBool (b : bool).

(** State threaded through the run: the directories created so far and
    the log of effects. *)
Record st := mk_st { st_dirs : list string; st_log : list event }.

Inductive res (A : Type) := Ok (a : A) | Raise.
Arguments Ok {A} a.
Arguments Raise {A}.

Definition M (A : Type) := st -> res A * st.

Definition ret {A} (a : A) : M A := fun s => (Ok a, s).
Definition bind {A B} (m : M A) (k : A -> M B) : M B :=
  fun s => match m s with
           | (Ok a, s') => k a s'
           | (Raise, s') => (Raise, s')
           end.
Definition raise {A} : M A := fun s => (Raise, s).

Notation "x <- m ;; k" := (bind m (fun x => k))
  (at level 61, m at next level, right associativity).
Notation "m ;;; k" := (bind m (fun _ => k))
  (at level 61, right associativity).

Definition emit (e : event) : M unit :=
  fun s => (Ok tt, mk_st (st_dirs s) (st_log s ++ [e])).

Fixpoint m_iter {A} (f : A -> M unit) (l : list A) : M unit :=
  match l with
  | [] => ret tt
  | x :: l' => f x ;;; m_iter f l'
  end.

Section Driver.
Context (E : env).

Definition node_exists (n : node) : bool :=
  match n with NMissing => false | _ => true end.

(** [os.path.exists] *)
Definition exists_ (p : string) : M bool :=
  fun s => (Ok (node_exists (fs0 E p) || existsb (String.eqb p) (st_dirs s)), s).

(** [os.makedirs] (every call in the script is guarded by [exists]) *)
Definition makedirs (p : string) : M unit :=
  fun s => if can_makedirs E p then (Ok tt, mk_st (st_dirs s ++ [p]) (st_log s ++ [Makedirs p]))
           else (Raise, s).

(** [if not exists(d): makedirs(d)] *)
Definition ensure_dir (d : string) : M unit :=
  e <- exists_ d ;; if e then ret tt else makedirs d.

(** [os.path.isfile], [os.path.isdir] *)
Definition isfile (p : string) : bool :=
  match fs0 E p with NFile => true | _ => false end.
Definition isdir (p : string) : bool :=
  match fs0 E p with NDir _ => true | _ => false end.

(** [os.path.lexists] *)
Definition lexists (p : string) : bool := node_exists (fs0 E p).

(** [glob._listdir(dirname, dironly)]: the entries of a directory ([.]
    for the empty name), only the subdirectories when [dironly]; [[]]
    when it cannot be listed. *)
Definition listdir (dirname : string) (dironly : bool) : list string :=
  match fs0 E (if (dirname =? "")%string then "." else dirname) with
  | NDir entries => if dironly then filter (fun e => isdir (join dirname e)) entries else entries
  | _ => []
  end.

Definition is_hidden (p : string) : bool :=
  match p with String c _ => Ascii.eqb c "."%char | EmptyString => false end.

(** [glob._glob1] *)
Definition glob1 (dirname pattern : string) (dironly : bool) : list string :=
  let names := listdir dirname dironly in
  let names := if is_hidden pattern then names else filter (fun x => negb (is_hidden x)) names in
  filter (fun x => fnmatch x pattern) names.

(** [glob._glob0] *)
Definition glob0 (dirname basename : string) (dironly : bool) : list string :=
  if (basename =? "")%string then (if isdir dirname then [basename] else [])
  else if lexists (join dirname basename) then [basename] else [].

(** [glob._iglob(pathname, None, None, False, dironly)]; the fuel is the
    length of the path, which shrinks at every recursive call. *)
Fixpoint iglob (fuel : nat) (pathname : string) (dironly : bool) : list string :=
  match fuel with
  | O => []
  | S f =>
      let '(dirname, basename) := path_split pathname in
      if negb (has_magic pathname) then
        if negb (basename =? "")%string then (if lexists pathname then [pathname] else [])
        else if isdir dirname then [pathname] else []
      else if (dirname =? "")%string then glob1 dirname basename dironly
      else
        let dirs := if negb (dirname =? pathname)%string && has_magic dirname
                    then iglob f dirname true else [dirname] in
        let glob_in_dir := if has_magic basename then glob1 else glob0 in
        flat_map (fun d => map (join d) (glob_in_dir d basename dironly)) dirs
  end.

(** [glob.glob(pathname)] *)
Definition glob (pathname : string) : list string :=
  iglob (S (String.length pathname)) pathname false.

(** [is_sim_dir(path)] *)
Definition is_sim_dir (path : string) : bool :=
  if negb (isdir path) then false
  else match glob (path ++ "/pipeline*") with [] => false | _ => true end.

(** [find_mutual_files(dirs, glob_pattern, grep=grep)]; [grep=None] and
    an empty list are both falsy and both [[]] here. *)
Definition strip_dir (d f : string) : string :=
  lstrip_slash (drop_chars (String.length d) f).

Definition find_mutual_files (dirs : list string) (glob_pattern : string)
  (grep : list string) : list string :=
  let files := map (fun d => map (strip_dir d) (sort_strings (glob_rec E d glob_pattern))) dirs in
  match files with
  | [] => []
  | f0 :: rest =>
      let intersection := fold_left set_inter rest f0 in
      let intersection :=
        match grep with
        | [] => intersection
        | _ => flat_map (fun g => filter (fun ic => contains g ic) intersection) grep
        end in
      sort_strings intersection
  end.

(** [ROOT_MACRO = join(O2DPG_ROOT, "RelVal", "ReleaseValidation.C")] *)
Definition ROOT_MACRO : string :=
  join (join (O2DPG_ROOT E) "RelVal") "ReleaseValidation.C".

Definition dq : string := String "034"%char EmptyString.
Definition bs : string := String "092"%char EmptyString.

Definition kbool (b : bool) : string := if b then "kTRUE" else "kFALSE".


(** The command text [cmd] as printed. *)
Definition relval_cmd (file1 file2 : string) (a : args) : string :=
  "root -l -b -q " ++ ROOT_MACRO ++ bs ++ "(" ++ bs ++ dq ++ abspath E file1 ++ bs ++ dq
  ++ "," ++ bs ++ dq ++ abspath E file2 ++ bs ++ dq
  ++ "," ++ test a ++ "," ++ chi2_value a ++ "," ++ rel_mean_diff a ++ ","
  ++ rel_entries_diff a ++ "," ++ kbool (select_critical a) ++ ","
  ++ kbool (no_plots a) ++ bs ++ ")".

(** [rel_val_files(file1, file2, args, output_dir)] *)
Definition rel_val_files (file1 file2 : string) (a : args) (output_dir : string) : M pyval :=
  ensure_dir output_dir ;;;
  emit (Print ("Running " ++ relval_cmd file1 file2 a)) ;;;
  match shlex_split (relval_cmd file1 file2 a) with
  | None => raise
  | Some argv =>
      emit (Spawn argv output_dir) ;;;
      (* p.wait() *)
      emit (Wait (child_status E argv output_dir)) ;;;
      ret (PyInt 0)
  end.

(** The loop of [has_severity] over the requested severities: whether
    some requested severity has a non-empty list, and the lines printed. *)
Fixpoint severity_scan (res : tsummary) (severity : list string) : bool * list string :=
  match severity with
  | [] => (false, [])
  | s :: ss =>
      let '(b, out) := severity_scan res ss in
      match dict_get res s with
      | None | Some [] => (b, out)
      | Some names =>
          (true, ("Histograms for severity " ++ s ++ ":")
                   :: map (fun n => "    " ++ n) names ++ out)
      end
  end.

(** [has_severity(filename, severity)] *)
Definition has_severity (filename : string) (severity : list string) : M bool :=
  match read_test_summary E filename with
  | None => raise
  | Some res =>
      let '(b, out) := severity_scan res severity in
      m_iter (fun l => emit (Print l)) out ;;; ret b
  end.

Definition default_severity : list string := ["BAD"; "CRIT_NC"].

(** [summary_dict[key] = value] *)
Fixpoint dict_set (d : tsummary) (k : string) (v : list string) : tsummary :=
  match d with
  | [] => [(k, v)]
  | (k', v') :: d' => if (k =? k')%string then (k', v) :: d' else (k', v') :: dict_set d' k v
  end.

Fixpoint filter_severe (paths : list string) : M (list string) :=
  match paths with
  | [] => ret []
  | p :: ps =>
      b <- has_severity p default_severity ;;
      r <- filter_severe ps ;;
      ret (if b then p :: r else r)
  end.

(** [add_to_summary(paths_to_summary, key, summary_dict)]; the dict is
    mutated in place, here returned. *)
Definition add_to_summary (paths : list string) (key : string) (d : tsummary) : M tsummary :=
  l <- filter_severe paths ;; ret (dict_set d key l).

(** [b.replace(".", "_")] *)
Fixpoint replace_dot (s : string) : string :=
  match s with
  | EmptyString => EmptyString
  | String c s' => String (if Ascii.eqb c "."%char then "_"%char else c) (replace_dot s')
  end.

Definition accepted_types : list string :=
  ["UInt_t"; "Int_t"; "Float_t"; "Double_t"; "Double32_t"].

(** Names of the leaves of accepted type, sorted. *)
Definition branch_names (leaves : list (string * string)) : list string :=
  sort_strings (map fst (filter (fun l => existsb (String.eqb (snd l)) accepted_types) leaves)).

(** [load_root_file(path, "RECREATE")]: [Some path] for the open file. *)
Definition load_root_file (path : string) : M (option string) :=
  if root_open_ok E path then ret (Some path)
  else emit (Print ("WARNING: ROOT file " ++ path ++ " might not exist or could not be opened")) ;;;
       ret None.

(** A method call on a file object that may be [None]. *)
Definition on_file (f : option string) (k : string -> M unit) : M unit :=
  match f with Some p => k p | None => raise end.

(** First loop: fill side A; a branch whose [Draw] returns [-1] is skipped.
    Returns the kept branches ([branch_names2]). *)
Fixpoint fill_side_a (chain1 : list string) (treename : string) (out1 : option string)
  (bs1 : list string) : M (list string) :=
  match bs1 with
  | [] => ret []
  | b :: bs' =>
      let h_name := replace_dot b in
      if (chain_draw E chain1 treename (b ++ ">>" ++ h_name) =? -1)%Z
      then fill_side_a chain1 treename out1 bs'
      else on_file out1 (fun p => emit (WriteHist p h_name)) ;;;
           r <- fill_side_a chain1 treename out1 bs' ;;
           ret (b :: r)
  end.

(** Second loop: re-fill the reset histograms from side B; the return
    value of [chain2.Draw] is not looked at. *)
Fixpoint fill_side_b (chain2 : list string) (treename : string) (out2 : option string)
  (bs2 : list string) : M unit :=
  match bs2 with
  | [] => ret tt
  | b :: bs' =>
      let h_name := replace_dot b in
      on_file out2 (fun _ => ret tt) ;;;
      let _ := chain_draw E chain2 treename (b ++ ">>+" ++ h_name) in
      on_file out2 (fun p => emit (WriteHist p h_name)) ;;;
      fill_side_b chain2 treename out2 bs'
  end.

(** [make_generic_histograms_from_chain(filenames1, filenames2, output_filepath1, output_filepath2, treename)] *)
Definition make_generic_histograms_from_chain (filenames1 filenames2 : list string)
  (output_filepath1 output_filepath2 treename : string) : M unit :=
  let bn1 := branch_names (chain_leaves E filenames1 treename) in
  let bn2 := branch_names (chain_leaves E filenames2 treename) in
  bn1' <- (if list_eq_dec string_dec bn1 bn2 then ret bn1
           else emit (Print "WARNING: Found different branches in input files") ;;;
                ret (inter_order E bn1 bn2)) ;;
  output_file1 <- load_root_file output_filepath1 ;;
  kept <- fill_side_a filenames1 treename output_file1 bn1' ;;
  output_file2 <- load_root_file output_filepath2 ;;
  fill_side_b filenames2 treename output_file2 kept ;;;
  on_file output_file1 (fun p => emit (CloseFile p)) ;;;
  on_file output_file2 (fun p => emit (CloseFile p)).

(** What [for f in filenames: chain.Add(f)] iterates over: the items of a
    list, or the characters of a string. *)
Inductive py_files := PyList (l : list string) | PyStr (s : string).

Definition iter_files (x : py_files) : list string :=
  match x with
  | PyList l => l
  | PyStr s => map (fun c => String c EmptyString) (list_ascii_of_string s)
  end.

(** The first half of [rel_val_ttree]: the [to_be_chained1],
    [to_be_chained2] and [output_dirs] lists, zipped.  [combine_patterns]
    [None] and [[]] are both falsy and both [[]] here. *)
Definition ttree_jobs (dir1 dir2 : string) (files combine_patterns : list string)
  : list (py_files * py_files * string) :=
  match combine_patterns with
  | _ :: _ =>
      map (fun cp => (PyList (map (join dir1) (filter (contains cp) files)),
                      PyList (map (join dir2) (filter (contains cp) files)),
                      cp ++ "_dir")) combine_patterns
  | [] =>
      map (fun hf => (PyStr (join dir1 hf), PyStr (join dir1 hf), hf ++ "_dir")) files
  end.

(** [rel_val_ttree(dir1, dir2, files, output_dir, args, treename, combine_patterns=...)] *)
Definition rel_val_ttree (dir1 dir2 : string) (files : list string) (output_dir : string)
  (a : args) (treename : string) (combine_patterns : list string) : M pyval :=
  m_iter (fun '(tbc1, tbc2, od) =>
            let output_dir_hf := join output_dir od in
            ensure_dir output_dir_hf ;;;
            make_generic_histograms_from_chain (iter_files tbc1) (iter_files tbc2)
              (join output_dir_hf "file1.root") (join output_dir_hf "file2.root") treename ;;;
            rel_val_files (abspath E (join output_dir_hf "file1.root"))
              (abspath E (join output_dir_hf "file2.root")) a output_dir_hf ;;;
            ret tt)
         (ttree_jobs dir1 dir2 files combine_patterns) ;;;
  ret (PyInt 0).

(** [rel_val_histograms(dir1, dir2, files, output_dir, args)] *)
Definition rel_val_histograms (dir1 dir2 : string) (files : list string)
  (output_dir : string) (a : args) : M unit :=
  m_iter (fun f =>
            let output_dir_f := join output_dir (f ++ "_dir") in
            ensure_dir output_dir_f ;;;
            rel_val_files (join dir1 f) (join dir2 f) a output_dir_f ;;;
            ret tt) files.

(** [if not any(flags): all flags = True] (mutates [args]). *)
Definition any_category (a : args) : bool :=
  with_hits a || with_tpctracks a || with_kine a || with_analysis a || with_qc a.

Definition enable_all (a : args) : args :=
  if any_category a then a
  else mk_args (input a) (test a) (chi2_value a) (rel_mean_diff a) (rel_entries_diff a)
         (select_critical a) (no_plots a) true true true true true
         (detectors a) (output a).

(** One row of the table printed by [file_sizes], before its verdict:
    [f"| {o} |"] with [o] the left-justified name and sizes. *)
Definition size_row (w0 : nat) (ws : list nat) (f : string) (sizes : list Z) : string :=
  "| " ++ ljust f w0
  ++ String.concat "" (map (fun '(w, sz) => " | " ++ ljust (str_Z sz) w) (combine ws sizes))
  ++ " |".

(** The second loop of [file_sizes]: for every mutual file, the sizes in
    all dirs, kept in [collect_dict["files"]] when
    [exceeding_difference_thresh] reports a pair; the row is printed after
    that call, whose division error propagates. *)
Fixpoint size_rows (dirs : list string) (threshold : Q) (w0 : nat) (ws : list nat)
  (fs : list string) : M (list (string * list Z)) :=
  match fs with
  | [] => ret []
  | f :: fs' =>
      let compare_sizes := map (fun d => file_size E (join d f)) dirs in
      let o := size_row w0 ws f compare_sizes in
      match exceeding_difference_thresh compare_sizes threshold with
      | None => raise
      | Some [] =>
          emit (Print (o ++ " OK |")) ;;;
          size_rows dirs threshold w0 ws fs'
      | Some diff_indices =>
          emit (Print (o ++ "  <==  EXCEEDING threshold of " ++ float_repr E threshold
                       ++ " at columns " ++ repr_pairs diff_indices ++ " |")) ;;;
          r <- size_rows dirs threshold w0 ws fs' ;;
          ret ((f, compare_sizes) :: r)
      end
  end.

(** [file_sizes(dirs, threshold)]: the ["files"] entry of the dict. *)
Definition file_sizes (dirs : list string) (threshold : Q) : M (list (string * list Z)) :=
  let intersection := find_mutual_files dirs "*.root" [] in
  let w0 := fold_left Nat.max (map String.length intersection) 0%nat in
  let ws := map (fun d => fold_left Nat.max
                            (map (fun f => String.length (str_Z (file_size E (join d f)))) intersection)
                            0%nat) dirs in
  emit (Print (nl ++ "| " ++ String.concat " | " dirs ++ " |" ++ nl)) ;;;
  size_rows dirs threshold w0 ws intersection.

(** [with open(join(dir, name), "w") as f: json.dump(..., f)]: [open]
    raises unless the directory exists (the empty name is the working
    directory). *)
Definition write_json (dir name : string) : M unit :=
  fun s =>
    if ((dir =? "")%string || isdir dir || existsb (String.eqb dir) (st_dirs s))
       && write_ok E (join dir name)
    then (Ok tt, mk_st (st_dirs s) (st_log s ++ [WriteJson (join dir name)]))
    else (Raise, s).

Definition look_for : string := "Summary.json".

(** The five [if args.with_...:] blocks of [rel_val_sim_dirs]. *)
Definition hits_block (dir1 dir2 output_dir : string) (a : args) (sd : tsummary) : M tsummary :=
  emit (EnterCategory Hits) ;;;
  let hit_files := find_mutual_files [dir1; dir2] "*Hits*.root" (detectors a) in
  let output_dir_hits := join output_dir "hits" in
  ensure_dir output_dir_hits ;;;
  rel_val_ttree dir1 dir2 hit_files output_dir_hits a "o2sim"
    (map (fun d => "Hits" ++ d) (detectors a)) ;;;
  add_to_summary (glob_rec E output_dir_hits look_for) "hist" sd.

Definition tpctracks_block (dir1 dir2 output_dir : string) (a : args) (sd : tsummary) : M tsummary :=
  emit (EnterCategory TPCTracks) ;;;
  let tpctrack_files := find_mutual_files [dir1; dir2] "tpctracks.root" [] in
  let output_dir_tpctracks := join output_dir "tpctracks" in
  ensure_dir output_dir_tpctracks ;;;
  rel_val_ttree dir1 dir2 tpctrack_files output_dir_tpctracks a "tpcrec" ["tpctracks.root"] ;;;
  add_to_summary (glob_rec E output_dir_tpctracks look_for) "tpctracks" sd.

Definition kine_block (dir1 dir2 output_dir : string) (a : args) (sd : tsummary) : M tsummary :=
  emit (EnterCategory Kine) ;;;
  let kine_files := find_mutual_files [dir1; dir2] "*Kine.root" [] in
  let output_dir_kine := join output_dir "kine" in
  ensure_dir output_dir_kine ;;;
  rel_val_ttree dir1 dir2 kine_files output_dir_kine a "o2sim" ["Kine.root"] ;;;
  add_to_summary (glob_rec E output_dir_kine look_for) "kine" sd.

Definition analysis_block (dir1 dir2 output_dir : string) (a : args) (sd : tsummary) : M tsummary :=
  emit (EnterCategory Analysis) ;;;
  let dir_analysis1 := join dir1 "Analysis" in
  let dir_analysis2 := join dir2 "Analysis" in
  let analysis_files := find_mutual_files [dir_analysis1; dir_analysis2] "*.root" [] in
  let output_dir_analysis := join output_dir "analysis" in
  emit (Print (output_dir ++ " " ++ output_dir_analysis)) ;;;
  ensure_dir output_dir_analysis ;;;
  rel_val_histograms dir_analysis1 dir_analysis2 analysis_files output_dir_analysis a ;;;
  add_to_summary (glob_rec E output_dir_analysis look_for) "analysis" sd.

Definition qc_block (dir1 dir2 output_dir : string) (a : args) (sd : tsummary) : M tsummary :=
  emit (EnterCategory QC) ;;;
  let dir_qc1 := join dir1 "QC" in
  let dir_qc2 := join dir2 "QC" in
  let qc_files := find_mutual_files [dir_qc1; dir_qc2] "*.root" [] in
  let output_dir_qc := join output_dir "qc" in
  ensure_dir output_dir_qc ;;;
  rel_val_histograms dir_qc1 dir_qc2 qc_files output_dir_qc a ;;;
  add_to_summary (glob_rec E output_dir_qc look_for) "qc" sd.

(** [rel_val_sim_dirs(args)]: returns the [args] object as mutated by the
    call and the [summary_dict] it dumps. *)
Definition rel_val_sim_dirs (a : args) : M (args * tsummary) :=
  let '(dir1, dir2) := input a in
  let output_dir := output a in
  _file_sizes_to_json <- file_sizes [dir1; dir2] (1#2) ;;
  write_json output_dir "file_sizes.json" ;;;
  let a := enable_all a in
  s1 <- (if with_hits a then hits_block dir1 dir2 output_dir a [] else ret []) ;;
  s2 <- (if with_tpctracks a then tpctracks_block dir1 dir2 output_dir a s1 else ret s1) ;;
  s3 <- (if with_kine a then kine_block dir1 dir2 output_dir a s2 else ret s2) ;;
  s4 <- (if with_analysis a then analysis_block dir1 dir2 output_dir a s3 else ret s3) ;;
  s5 <- (if with_qc a then qc_block dir1 dir2 output_dir a s4 else ret s4) ;;
  write_json output_dir "SummaryToBeChecked.json" ;;;
  ret (a, s5).

Inductive relval_func := FFiles | FSimDirs.

Definition bad_input_msg : string :=
  "Please provide either 2 files or 2 simulation directories as input.".

(** [rel_val(args)].  [func(args)] with [func = rel_val_files] passes one
    argument to a function of four: a [TypeError]. *)
Definition rel_val (a : args) : M pyval :=
  let '(i0, i1) := input a in
  let func := if isfile i0 && isfile i1 then Some FFiles else None in
  let func := if is_sim_dir i0 && is_sim_dir i1 then Some FSimDirs else func in
  match func with
  | None => emit (Print bad_input_msg) ;;; ret (PyInt 1)
  | Some f =>
      ensure_dir (output a) ;;;
      match f with
      | FFiles => raise
      | FSimDirs => rel_val_sim_dirs a ;;; ret PyNone
      end
  end.

End Driver.

Open Scope list_scope.

(* ------------------------------------------------------------------ *)
(** *** Splitting the command line *)


Lemma string_of_list_ascii_app (l1 l2 : list ascii) :
  string_of_list_ascii (l1 ++ l2) = (string_of_list_ascii l1 ++ string_of_list_ascii l2)%string.
Proof. induction l1 as [|c l1 IH]; simpl; [reflexivity|]. rewrite IH. reflexivity. Qed.








(* ------------------------------------------------------------------ *)
(** *** Facts about the size audit *)

Lemma in_combinations2 (n i j : nat) :
  In (i, j) (combinations2 n) <-> (i < j < n)%nat.
Proof.
  unfold combinations2. rewrite in_flat_map. split.
  - intros [i' [Hi' Hm]]. apply in_seq in Hi'.
    apply in_map_iff in Hm as [j' [Heq Hj']]. injection Heq as -> ->.
    apply in_seq in Hj'. lia.
  - intros H. exists i. split; [apply in_seq; lia|].
    apply in_map_iff. exists j. split; [reflexivity|]. apply in_seq. lia.
Qed.

Lemma py_gt_true (q t : Q) : py_gt q t = true <-> (t < q)%Q.
Proof.
  unfold py_gt. rewrite negb_true_iff. split.
  - intros H. apply Qnot_le_lt. intros Hle. apply Qle_bool_iff in Hle. congruence.
  - intros H. destruct (Qle_bool q t) eqn:E; [|reflexivity].
    apply Qle_bool_iff in E. exfalso. apply (Qlt_not_le _ _ H E).
Qed.

Lemma edt_pair_eq (sizes : list Z) (t : Q) (i j : nat) :
  edt_pair sizes t i j =
  if pair_ok sizes i j then Some (py_gt (rel_diff sizes i j) t) else None.
Proof.
  unfold edt_pair, py_truediv, pair_ok, rel_diff.
  destruct (nth j sizes 0 =? 0)%Z; [reflexivity|]. simpl.
  destruct (Qle_bool _ _); [reflexivity|]. simpl.
  destruct (py_gt _ t); reflexivity.
Qed.

Lemma edt_loop_defined (sizes : list Z) (t : Q) (ps : list (nat * nat)) :
  (exists r, edt_loop sizes t ps = Some r) <->
  Forall (fun p => pair_ok sizes (fst p) (snd p) = true) ps.
Proof.
  induction ps as [|[i j] ps IH]; simpl.
  - split; [constructor|eauto].
  - rewrite edt_pair_eq, Forall_cons_iff. simpl.
    destruct (pair_ok sizes i j).
    + rewrite <- IH. split.
      * intros [r Hr]. destruct (edt_loop sizes t ps); [|discriminate]. eauto.
      * intros [_ [r Hr]]. rewrite Hr. eauto.
    + split; [intros [r Hr]; discriminate | intros [H _]; discriminate].
Qed.

Lemma edt_loop_members (sizes : list Z) (t : Q) (ps : list (nat * nat))
  (r : list (nat * nat)) :
  edt_loop sizes t ps = Some r ->
  forall p, In p r <-> In p ps /\ (t < rel_diff sizes (fst p) (snd p))%Q.
Proof.
  revert r. induction ps as [|[i j] ps IH]; simpl; intros r Hr p.
  - injection Hr as <-. simpl. tauto.
  - rewrite edt_pair_eq in Hr. destruct (pair_ok sizes i j); [|discriminate].
    destruct (edt_loop sizes t ps) as [r'|] eqn:E; [|discriminate].
    injection Hr as <-. specialize (IH r' eq_refl p).
    destruct (py_gt (rel_diff sizes i j) t) eqn:G.
    + apply py_gt_true in G. simpl. rewrite IH. split.
      * intros [<-|H]; simpl; tauto.
      * intros [[<-|H] Hq]; tauto.
    + rewrite IH. split; [tauto|]. intros [[<-|H] Hq]; [|tauto].
      apply py_gt_true in Hq. simpl in Hq. congruence.
Qed.

(** Characterisation of the returned pairs, whenever the call returns. *)
Lemma edt_members (sizes : list Z) (t : Q) (r : list (nat * nat)) :
  exceeding_difference_thresh sizes t = Some r ->
  forall i j, In (i, j) r <-> (i < j < List.length sizes)%nat /\ (t < rel_diff sizes i j)%Q.
Proof.
  intros Hr i j. rewrite (edt_loop_members _ _ _ _ Hr (i, j)), in_combinations2.
  reflexivity.
Qed.

(** A zero size after the first is the divisor of the pair [(0, j)]. *)
Lemma edt_zero (sizes : list Z) (t : Q) (j : nat) :
  (1 <= j < List.length sizes)%nat -> nth j sizes 0%Z = 0%Z ->
  exceeding_difference_thresh sizes t = None.
Proof.
  intros Hj Hz. destruct (exceeding_difference_thresh sizes t) as [r|] eqn:E; [|reflexivity].
  exfalso. assert (H : exists r, exceeding_difference_thresh sizes t = Some r) by eauto.
  unfold exceeding_difference_thresh in H. rewrite edt_loop_defined, Forall_forall in H.
  specialize (H (0%nat, j)). simpl in H.
  unfold pair_ok in H. rewrite Hz in H. simpl in H.
  discriminate H. apply in_combinations2. lia.
Qed.

(* ------------------------------------------------------------------ *)
(** *** Which category blocks a run enters *)

Definition entered (l : list event) : list category :=
  flat_map (fun e => match e with EnterCategory c => [c] | _ => [] end) l.

Definition all_categories : list category := [Hits; TPCTracks; Kine; Analysis; QC].

(** The categories whose flag is set, in the order of the source. *)
Definition selected (a : args) : list category :=
  (if with_hits a then [Hits] else []) ++ (if with_tpctracks a then [TPCTracks] else [])
  ++ (if with_kine a then [Kine] else []) ++ (if with_analysis a then [Analysis] else [])
  ++ (if with_qc a then [QC] else []).

(** [m] only appends to the log; a normal return appends the category
    markers [cats], a raise a prefix of them. *)
Definition tracks {A} (m : M A) (cats : list category) : Prop :=
  forall s, exists l, st_log (snd (m s)) = st_log s ++ l /\
    (fst (m s) <> Raise -> entered l = cats) /\
    exists rest, cats = entered l ++ rest.

Definition quiet {A} (m : M A) : Prop := tracks m [].

Lemma entered_app (l1 l2 : list event) : entered (l1 ++ l2) = entered l1 ++ entered l2.
Proof. unfold entered. apply flat_map_app. Qed.

Ltac nil_ext := split; [reflexivity|split; [intros _; reflexivity|exists []; reflexivity]].

Lemma tracks_ret {A} (a : A) : quiet (ret a).
Proof. intros s. exists []. rewrite app_nil_r. nil_ext. Qed.

Lemma tracks_raise {A} : quiet (@raise A).
Proof. intros s. exists []. rewrite app_nil_r. nil_ext. Qed.

Lemma tracks_emit (e : event) : tracks (emit e) (entered [e]).
Proof.
  intros s. exists [e]. split; [reflexivity|split; [intros _; reflexivity|exists []; rewrite app_nil_r; reflexivity]].
Qed.

Lemma quiet_emit (e : event) : entered [e] = [] -> quiet (emit e).
Proof. intros H. unfold quiet. rewrite <- H. apply tracks_emit. Qed.

Lemma tracks_bind {A B} (m : M A) (k : A -> M B) c1 c2 c :
  tracks m c1 -> (forall a, tracks (k a) c2) -> c = c1 ++ c2 -> tracks (bind m k) c.
Proof.
  intros Hm Hk -> s. unfold bind.
  destruct (Hm s) as [l1 [E1 [O1 [r1 P1]]]].
  destruct (m s) as [[a|] s1] eqn:Ems; simpl in *.
  - specialize (O1 ltac:(discriminate)).
    destruct (Hk a s1) as [l2 [E2 [O2 [r2 P2]]]].
    exists (l1 ++ l2). rewrite E2, E1, app_assoc. split; [reflexivity|split].
    + intros H. rewrite entered_app, O1, (O2 H). reflexivity.
    + exists r2. rewrite entered_app, O1, P2, app_assoc. reflexivity.
  - exists l1. split; [exact E1|split; [intros H; congruence|]].
    exists (r1 ++ c2). rewrite P1, app_assoc. reflexivity.
Qed.

Lemma quiet_bind {A B} (m : M A) (k : A -> M B) :
  quiet m -> (forall a, quiet (k a)) -> quiet (bind m k).
Proof. intros Hm Hk. eapply tracks_bind; eauto. Qed.

Lemma tracks_if {A} (b : bool) (m1 m2 : M A) c1 c2 :
  tracks m1 c1 -> tracks m2 c2 -> tracks (if b then m1 else m2) (if b then c1 else c2).
Proof. destruct b; auto. Qed.

Lemma quiet_m_iter {A} (f : A -> M unit) (l : list A) :
  (forall x, quiet (f x)) -> quiet (m_iter f l).
Proof.
  intros Hf. induction l as [|x l IH]; simpl; [apply tracks_ret|].
  apply quiet_bind; auto.
Qed.

Section Quiet.
Context (E : env).

Lemma quiet_exists (p : string) : quiet (exists_ E p).
Proof. intros s. exists []. rewrite app_nil_r. nil_ext. Qed.

Lemma quiet_makedirs (p : string) : quiet (makedirs E p).
Proof.
  intros s. unfold makedirs. destruct (can_makedirs E p).
  - exists [Makedirs p]. nil_ext.
  - exists []. rewrite app_nil_r. nil_ext.
Qed.

Lemma quiet_write_json (d n : string) : quiet (write_json E d n).
Proof.
  intros s. unfold write_json. destruct (_ && _).
  - exists [WriteJson (join d n)]. nil_ext.
  - exists []. rewrite app_nil_r. nil_ext.
Qed.

Lemma quiet_on_file (f : option string) (k : string -> M unit) :
  (forall p, quiet (k p)) -> quiet (on_file f k).
Proof. intros H. destruct f; simpl; [apply H|apply tracks_raise]. Qed.

Ltac quiet_step :=
  match goal with
  | |- quiet (bind _ _) => apply quiet_bind; [|intros ?]
  | |- quiet (ret _) => apply tracks_ret
  | |- quiet raise => apply tracks_raise
  | |- quiet (emit _) => apply quiet_emit; reflexivity
  | |- quiet (exists_ _ _) => apply quiet_exists
  | |- quiet (makedirs _ _) => apply quiet_makedirs
  | |- quiet (write_json _ _ _) => apply quiet_write_json
  | |- quiet (on_file _ _) => apply quiet_on_file; intros ?
  | |- quiet (m_iter _ _) => apply quiet_m_iter; intros ?
  | |- quiet (match ?x with _ => _ end) => destruct x
  | |- quiet (if ?b then _ else _) => destruct b
  end.

Ltac quiet_tac := repeat (quiet_step || (progress simpl)).

Lemma quiet_ensure_dir (d : string) : quiet (ensure_dir E d).
Proof. unfold ensure_dir. quiet_tac. Qed.

Lemma quiet_rel_val_files f1 f2 a od : quiet (rel_val_files E f1 f2 a od).
Proof. unfold rel_val_files. apply quiet_bind; [apply quiet_ensure_dir|intros _]. quiet_tac. Qed.

Lemma quiet_has_severity p sev : quiet (has_severity E p sev).
Proof. unfold has_severity. destruct (read_test_summary E p); [|apply tracks_raise].
  destruct (severity_scan _ _). quiet_tac. Qed.

Lemma quiet_add_to_summary ps k d : quiet (add_to_summary E ps k d).
Proof.
  unfold add_to_summary. apply quiet_bind; [|intros; apply tracks_ret].
  induction ps; simpl; [apply tracks_ret|].
  apply quiet_bind; [apply quiet_has_severity|intros ?].
  apply quiet_bind; [assumption|intros ?; apply tracks_ret].
Qed.

Lemma quiet_fill_side_a c t o bs1 : quiet (fill_side_a E c t o bs1).
Proof.
  induction bs1 as [|b bs IH]; simpl; [apply tracks_ret|].
  destruct (_ =? _)%Z; [exact IH|]. quiet_tac; auto.
Qed.

Lemma quiet_fill_side_b c t o bs2 : quiet (fill_side_b E c t o bs2).
Proof.
  induction bs2 as [|b bs IH]; simpl; [apply tracks_ret|]. quiet_tac; auto.
Qed.

Lemma quiet_load_root_file p : quiet (load_root_file E p).
Proof. unfold load_root_file. quiet_tac. Qed.

Lemma quiet_make_histograms f1 f2 o1 o2 t :
  quiet (make_generic_histograms_from_chain E f1 f2 o1 o2 t).
Proof.
  unfold make_generic_histograms_from_chain.
  apply quiet_bind; [quiet_tac|intros ?].
  apply quiet_bind; [apply quiet_load_root_file|intros ?].
  apply quiet_bind; [apply quiet_fill_side_a|intros ?].
  apply quiet_bind; [apply quiet_load_root_file|intros ?].
  apply quiet_bind; [apply quiet_fill_side_b|intros ?].
  quiet_tac.
Qed.

Lemma quiet_rel_val_ttree d1 d2 fs od a t cps : quiet (rel_val_ttree E d1 d2 fs od a t cps).
Proof.
  unfold rel_val_ttree. apply quiet_bind; [|intros; apply tracks_ret].
  apply quiet_m_iter. intros [[x y] z].
  apply quiet_bind; [apply quiet_ensure_dir|intros ?].
  apply quiet_bind; [apply quiet_make_histograms|intros ?].
  apply quiet_bind; [apply quiet_rel_val_files|intros ?]. apply tracks_ret.
Qed.

Lemma quiet_rel_val_histograms d1 d2 fs od a : quiet (rel_val_histograms E d1 d2 fs od a).
Proof.
  unfold rel_val_histograms. apply quiet_m_iter. intros f.
  apply quiet_bind; [apply quiet_ensure_dir|intros ?].
  apply quiet_bind; [apply quiet_rel_val_files|intros ?]. apply tracks_ret.
Qed.

Lemma quiet_size_rows dirs t w0 ws fs : quiet (size_rows E dirs t w0 ws fs).
Proof.
  induction fs as [|f fs IH]; simpl; [apply tracks_ret|].
  destruct (exceeding_difference_thresh _ _) as [[|p ps]|]; [| |apply tracks_raise];
    (apply quiet_bind; [apply quiet_emit; reflexivity|intros ?]); [exact IH|].
  apply quiet_bind; [exact IH|intros ?; apply tracks_ret].
Qed.

Lemma quiet_file_sizes dirs t : quiet (file_sizes E dirs t).
Proof.
  unfold file_sizes. apply quiet_bind; [apply quiet_emit; reflexivity|intros ?].
  apply quiet_size_rows.
Qed.

Ltac block_tac c :=
  eapply tracks_bind; [apply tracks_emit|intros ?|reflexivity];
  repeat first [ apply quiet_ensure_dir | apply quiet_rel_val_ttree
               | apply quiet_rel_val_histograms | apply quiet_add_to_summary
               | apply quiet_bind; [|intros ?] | apply quiet_emit; reflexivity ].

Lemma tracks_blocks d1 d2 od a sd :
  tracks (hits_block E d1 d2 od a sd) [Hits] /\
  tracks (tpctracks_block E d1 d2 od a sd) [TPCTracks] /\
  tracks (kine_block E d1 d2 od a sd) [Kine] /\
  tracks (analysis_block E d1 d2 od a sd) [Analysis] /\
  tracks (qc_block E d1 d2 od a sd) [QC].
Proof.
  unfold hits_block, tpctracks_block, kine_block, analysis_block, qc_block.
  repeat split; block_tac tt.
Qed.

(** The category markers of a whole directory run. *)
Lemma tracks_rel_val_sim_dirs (a : args) :
  tracks (rel_val_sim_dirs E a) (selected (enable_all a)).
Proof.
  unfold rel_val_sim_dirs. destruct (input a) as [d1 d2].
  eapply tracks_bind; [apply quiet_file_sizes|intros ?|reflexivity].
  eapply tracks_bind; [apply quiet_write_json|intros ?|reflexivity].
  unfold selected.
  eapply tracks_bind; [apply tracks_if; [apply tracks_blocks|apply tracks_ret]|intros ?|reflexivity].
  eapply tracks_bind; [apply tracks_if; [apply tracks_blocks|apply tracks_ret]|intros ?|reflexivity].
  eapply tracks_bind; [apply tracks_if; [apply tracks_blocks|apply tracks_ret]|intros ?|reflexivity].
  eapply tracks_bind; [apply tracks_if; [apply tracks_blocks|apply tracks_ret]|intros ?|reflexivity].
  eapply tracks_bind; [apply tracks_if; [apply tracks_blocks|apply tracks_ret]|intros ?|].
  - eapply tracks_bind; [apply quiet_write_json|intros ?; apply tracks_ret|reflexivity].
  - rewrite !app_nil_r. simpl. rewrite ?app_assoc. reflexivity.
Qed.

End Quiet.

(* ------------------------------------------------------------------ *)
(** *** Severity scan *)

Definition nonempty_for (res : tsummary) (s : string) : bool :=
  match dict_get res s with Some (_ :: _) => true | _ => false end.

Lemma severity_scan_flag (res : tsummary) (sev : list string) :
  fst (severity_scan res sev) = existsb (nonempty_for res) sev.
Proof.
  induction sev as [|s ss IH]; simpl; [reflexivity|].
  destruct (severity_scan res ss) as [b out]. simpl in IH. subst b.
  unfold nonempty_for. destruct (dict_get res s) as [[|n ns]|]; reflexivity.
Qed.

Lemma m_iter_print_ok (out : list string) (s : st) :
  fst (m_iter (fun l => emit (Print l)) out s) = Ok tt.
Proof.
  revert s. induction out as [|x out IH]; intros s; simpl; [reflexivity|].
  unfold bind at 1. simpl. apply IH.
Qed.

Lemma has_severity_result (E : env) (filename : string) (sev : list string)
  (res : tsummary) (s : st) :
  read_test_summary E filename = Some res ->
  fst (has_severity E filename sev s) = Ok (existsb (nonempty_for res) sev).
Proof.
  intros H. unfold has_severity. rewrite H.
  pose proof (severity_scan_flag res sev) as F.
  destruct (severity_scan res sev) as [b out]. simpl in F. subst b.
  unfold bind. pose proof (m_iter_print_ok out s) as O.
  destruct (m_iter _ out s) as [r s']. simpl in O. subst r. reflexivity.
Qed.

(* ------------------------------------------------------------------ *)
(** *** Histogram filling *)

(** [Draw] on side A does not return [-1]. *)
Definition draw_ok (E : env) (chain1 : list string) (treename b : string) : bool :=
  negb (chain_draw E chain1 treename (b ++ ">>" ++ replace_dot b)%string =? -1)%Z.

Definition common_branches (E : env) (f1 f2 : list string) (treename : string) : list string :=
  let bn1 := branch_names (chain_leaves E f1 treename) in
  let bn2 := branch_names (chain_leaves E f2 treename) in
  if list_eq_dec string_dec bn1 bn2 then bn1 else inter_order E bn1 bn2.

Definition branch_warning : event := Print "WARNING: Found different branches in input files".

Lemma fill_side_a_run (E : env) c t o1 bs1 s :
  fill_side_a E c t (Some o1) bs1 s =
  (Ok (filter (draw_ok E c t) bs1),
   mk_st (st_dirs s) (st_log s ++ map (fun b => WriteHist o1 (replace_dot b))
                                      (filter (draw_ok E c t) bs1))).
Proof.
  revert s. induction bs1 as [|b bs IH]; intros s; cbn [fill_side_a filter map].
  - unfold ret. rewrite app_nil_r. destruct s; reflexivity.
  - destruct (chain_draw E c t (b ++ ">>" ++ replace_dot b)%string =? -1)%Z eqn:D.
    + assert (draw_ok E c t b = false) as -> by (unfold draw_ok; rewrite D; reflexivity).
      apply IH.
    + assert (draw_ok E c t b = true) as -> by (unfold draw_ok; rewrite D; reflexivity).
      unfold bind, on_file, emit at 1. cbn [fst snd st_dirs st_log]. rewrite IH.
      unfold ret. cbn [map st_dirs st_log]. rewrite <- app_assoc. reflexivity.
Qed.

Lemma fill_side_b_run (E : env) c t o2 bs2 s :
  fill_side_b E c t (Some o2) bs2 s =
  (Ok tt, mk_st (st_dirs s) (st_log s ++ map (fun b => WriteHist o2 (replace_dot b)) bs2)).
Proof.
  revert s. induction bs2 as [|b bs IH]; intros s; simpl.
  - rewrite app_nil_r. destruct s; reflexivity.
  - unfold bind, on_file, ret. simpl. rewrite IH. simpl. rewrite <- app_assoc. reflexivity.
Qed.

(** The whole trace of [make_generic_histograms_from_chain] when both
    output files open. *)
Lemma make_histograms_run (E : env) f1 f2 o1 o2 t s :
  root_open_ok E o1 = true -> root_open_ok E o2 = true ->
  exists pre,
    (pre = [] \/ pre = [branch_warning]) /\
    make_generic_histograms_from_chain E f1 f2 o1 o2 t s =
    (Ok tt, mk_st (st_dirs s)
              (st_log s ++ pre
               ++ map (fun b => WriteHist o1 (replace_dot b))
                      (filter (draw_ok E f1 t) (common_branches E f1 f2 t))
               ++ map (fun b => WriteHist o2 (replace_dot b))
                      (filter (draw_ok E f1 t) (common_branches E f1 f2 t))
               ++ [CloseFile o1; CloseFile o2])).
Proof.
  intros H1 H2. unfold make_generic_histograms_from_chain, common_branches.
  destruct (list_eq_dec string_dec _ _) as [Heq|Hne]; [exists []|exists [branch_warning]];
    (split; [auto|]); unfold bind, ret, emit, load_root_file; simpl; rewrite H1, H2; simpl;
    rewrite fill_side_a_run; simpl; rewrite fill_side_b_run; simpl;
    repeat rewrite <- app_assoc; reflexivity.
Qed.

(* ------------------------------------------------------------------ *)
(** *** Processes started *)



(* ------------------------------------------------------------------ *)
(** ** A concrete environment *)

Definition str_in (x : string) (l : list string) : bool := existsb (String.eqb x) l.

(** Two simulation directories [sim1], [sim2] and a file [a.txt]; hit
    files [o2sim_HitsITS.root] under [d1] and [d2]; every verdict reads
    [{"BAD": ["h1"]}]; the child process exits with status 1; [Draw]
    fails on the chain [b.root]. *)
Definition demo_env : env := {|
  fs0 := fun p =>
    if str_in p ["sim1"; "sim2"] then NDir ["pipeline_metrics.json"; "o2sim_HitsITS.root"]
    else if (p =? "a.txt")%string then NFile else NMissing;
  glob_rec := fun d pat =>
    if str_in d ["d1"; "d2"] then [d ++ "/o2sim_HitsITS.root"]%string else [];
  abspath := fun p => ("/work/" ++ p)%string;
  file_size := fun _ => 100%Z;
  read_test_summary := fun _ => Some [("BAD", ["h1"])];
  child_status := fun _ _ => 1%Z;
  chain_leaves := fun _ _ => [("x", "Float_t")];
  chain_draw := fun files _ _ => if str_in "b.root" files then (-1)%Z else 10%Z;
  root_open_ok := fun _ => true;
  O2DPG_ROOT := "/opt/O2DPG";
  can_makedirs := fun _ => true;
  write_ok := fun _ => true;
  float_repr := fun q => if Qeq_bool q (1#2) then "0.5" else "0.1";
  inter_order := set_inter;
  inter_order_perm := fun a b => Permutation_refl _
|}.

(** [E] with other [glob] results and file sizes. *)
Definition with_files (E : env) (g : string -> string -> list string) (sz : string -> Z) : env := {|
  fs0 := fs0 E; glob_rec := g; abspath := abspath E; file_size := sz;
  read_test_summary := read_test_summary E; child_status := child_status E;
  chain_leaves := chain_leaves E; chain_draw := chain_draw E; root_open_ok := root_open_ok E;
  O2DPG_ROOT := O2DPG_ROOT E; can_makedirs := can_makedirs E; write_ok := write_ok E;
  float_repr := float_repr E; inter_order := inter_order E; inter_order_perm := inter_order_perm E
|}.

(** [E] with another filesystem. *)
Definition with_fs (E : env) (fs : string -> node) : env := {|
  fs0 := fs; glob_rec := glob_rec E; abspath := abspath E; file_size := file_size E;
  read_test_summary := read_test_summary E; child_status := child_status E;
  chain_leaves := chain_leaves E; chain_draw := chain_draw E; root_open_ok := root_open_ok E;
  O2DPG_ROOT := O2DPG_ROOT E; can_makedirs := can_makedirs E; write_ok := write_ok E;
  float_repr := float_repr E; inter_order := inter_order E; inter_order_perm := inter_order_perm E
|}.

(** A file [a.root] in both simulation directories, empty in [sim2]. *)
Definition zero_size_env : env :=
  with_files demo_env
    (fun d pat => if str_in d ["sim1"; "sim2"] && (pat =? "*.root")%string
                  then [d ++ "/a.root"]%string else glob_rec demo_env d pat)
    (fun p => if (p =? "sim2/a.root")%string then 0%Z else 100%Z).

(** An empty directory [run[1]] next to a simulation directory [run1]. *)
Definition bracket_env : env :=
  with_fs demo_env (fun p =>
    if (p =? ".")%string then NDir ["run[1]"; "run1"]
    else if (p =? "run[1]")%string then NDir []
    else if (p =? "run1")%string then NDir ["pipeline_metrics.json"]
    else if (p =? "run1/pipeline_metrics.json")%string then NFile
    else NMissing).

Definition demo_args (i0 i1 : string) : args := {|
  input := (i0, i1); test := "1"; chi2_value := "1.5"; rel_mean_diff := "1.5";
  rel_entries_diff := "0.01"; select_critical := false; no_plots := false;
  with_hits := false; with_tpctracks := false; with_kine := false;
  with_analysis := false; with_qc := false; detectors := ["ITS"]; output := "out"
|}.

Definition st0 : st := mk_st [] [].

(** The state once [rel_val] has created the output directory [out]. *)
Definition st_out : st := snd (ensure_dir demo_env "out" st0).

(* ------------------------------------------------------------------ *)
(** ** Claims *)

(** C1 (ColumnarReducer driver [rel_val_ttree]).  Without
    [combine_patterns] (here [[]], which is as falsy as [None]; it is what
    [rel_val_sim_dirs] passes for [--detectors] given no value), side B's
    chain is built from [join(dir1, hf)], not from [dir2]; and the job is a
    string, so [chain.Add] is called on its single characters.  The grouped
    branch joins side B under [dir2]. *)
Theorem rel_val_ttree_side_b_dir1 :
  ttree_jobs "d1" "d2" ["a.root"] [] =
    [(PyStr "d1/a.root", PyStr "d1/a.root", "a.root_dir")] /\
  iter_files (PyStr "d1/a.root") = ["d"; "1"; "/"; "a"; "."; "r"; "o"; "o"; "t"] /\
  ttree_jobs "d1" "d2" ["a.root"] ["a.root"] =
    [(PyList ["d1/a.root"], PyList ["d2/a.root"], "a.root_dir")].
Proof. repeat split; reflexivity. Qed.

(** C2, counterexample: a zero size at an index used as denominator makes
    [exceeding_difference_thresh] raise [ZeroDivisionError], for
    zero-vs-zero as well as for nonzero-vs-zero; the threshold is the
    float [0.1]. *)
Lemma exceeding_difference_thresh_zero_raises :
  exceeding_difference_thresh [0; 0]%Z (float_of_Q (1#10)) = None /\
  exceeding_difference_thresh [5; 0]%Z (float_of_Q (1#10)) = None.
Proof. split; vm_compute; reflexivity. Qed.

(** C2 (amended): no guard: whenever a size at an index [j >= 1] is zero
    (zero-vs-zero or nonzero-vs-zero), [exceeding_difference_thresh]
    raises [ZeroDivisionError], whatever the threshold. *)
Theorem exceeding_difference_thresh_zero_divisor (sizes : list Z) (t : Q) (j : nat) :
  (1 <= j < List.length sizes)%nat -> nth j sizes 0%Z = 0%Z ->
  exceeding_difference_thresh sizes t = None.
Proof. apply edt_zero. Qed.

Lemma exceeding_difference_thresh_zero_divisor_witness :
  (1 <= 1 < List.length [7; 0; 3]%Z)%nat /\ nth 1 [7; 0; 3]%Z 0%Z = 0%Z /\
  exceeding_difference_thresh [7; 0; 3]%Z (float_of_Q (1#10)) = None.
Proof.
  split; [simpl; lia|split; [reflexivity|]].
  apply (exceeding_difference_thresh_zero_divisor [7; 0; 3]%Z (float_of_Q (1#10)) 1%nat);
    [simpl; lia|reflexivity].
Defined.




(** C4 (PathSetMatcher [find_mutual_files]).  With two substring filters
    that both occur in one mutual file, the file is listed twice: the
    result is not duplicate-free. *)
Theorem find_mutual_files_grep_duplicates :
  find_mutual_files demo_env ["d1"; "d2"] "*Hits*.root" ["ITS"; "Hits"] =
    ["o2sim_HitsITS.root"; "o2sim_HitsITS.root"] /\
  ~ NoDup (find_mutual_files demo_env ["d1"; "d2"] "*Hits*.root" ["ITS"; "Hits"]).
Proof.
  split; [reflexivity|]. vm_compute. intros H. inversion H as [|x l Hx Hl].
  apply Hx. left. reflexivity.
Qed.

(** C5 (SeverityAggregator [has_severity]): for a readable verdict the
    result is [True] exactly when a requested severity has a non-empty
    list; [{"BAD": ["h1"]}] is flagged for [BAD] and not for [GOOD]. *)
Theorem has_severity_spec :
  (forall E filename sev res s,
     read_test_summary E filename = Some res ->
     exists b, fst (has_severity E filename sev s) = Ok b /\
       (b = true <-> exists sv, In sv sev /\ exists n ns, dict_get res sv = Some (n :: ns))) /\
  fst (has_severity demo_env "Summary.json" ["BAD"] st0) = Ok true /\
  fst (has_severity demo_env "Summary.json" ["GOOD"] st0) = Ok false.
Proof.
  split; [|split; reflexivity].
  intros E filename sev res s H. exists (existsb (nonempty_for res) sev).
  split; [apply has_severity_result; exact H|].
  rewrite existsb_exists. unfold nonempty_for. split.
  - intros [sv [Hin Hne]]. exists sv. split; [exact Hin|].
    destruct (dict_get res sv) as [[|n ns]|]; [discriminate| |discriminate]. eauto.
  - intros [sv [Hin [n [ns Hd]]]]. exists sv. rewrite Hd. auto.
Qed.

Lemma has_severity_spec_witness :
  exists b, fst (has_severity demo_env "Summary.json" ["BAD"] st0) = Ok b /\
    (b = true <-> exists sv, In sv ["BAD"] /\ exists n ns,
       dict_get [("BAD", ["h1"])] sv = Some (n :: ns)).
Proof.
  apply (proj1 has_severity_spec demo_env "Summary.json" ["BAD"] [("BAD", ["h1"])] st0).
  reflexivity.
Defined.

(** C6 (Orchestrator [rel_val_sim_dirs]): with no category flag set all
    five flags are switched on and the run enters all five category
    blocks; otherwise it enters exactly the blocks whose flag is set.  A
    raise inside a block stops the run, so the blocks entered are always a
    prefix of that list, and the whole list when the run returns. *)
Theorem rel_val_sim_dirs_categories (E : env) (a : args) (s : st) :
  (any_category a = false ->
     with_hits (enable_all a) = true /\ with_tpctracks (enable_all a) = true /\
     with_kine (enable_all a) = true /\ with_analysis (enable_all a) = true /\
     with_qc (enable_all a) = true) /\
  exists l, st_log (snd (rel_val_sim_dirs E a s)) = st_log s ++ l /\
    (fst (rel_val_sim_dirs E a s) <> Raise ->
       entered l = if any_category a then selected a else all_categories) /\
    exists rest, (if any_category a then selected a else all_categories) = entered l ++ rest.
Proof.
  assert (Hsel : selected (enable_all a) =
                 if any_category a then selected a else all_categories).
  { unfold enable_all. destruct (any_category a); reflexivity. }
  split.
  - intros H. unfold enable_all. rewrite H. repeat split.
  - rewrite <- Hsel. apply tracks_rel_val_sim_dirs.
Qed.

(** A run as [rel_val] makes it: from the state in which [rel_val] has
    created the output directory [out]. *)
Lemma rel_val_sim_dirs_categories_witness :
  any_category (demo_args "sim1" "sim2") = false /\
  fst (rel_val_sim_dirs demo_env (demo_args "sim1" "sim2") st_out) <> Raise /\
  exists l, st_log (snd (rel_val_sim_dirs demo_env (demo_args "sim1" "sim2") st_out))
              = st_log st_out ++ l /\
    entered l = all_categories.
Proof.
  split; [reflexivity|split; [vm_compute; discriminate|]].
  destruct (rel_val_sim_dirs_categories demo_env (demo_args "sim1" "sim2") st_out)
    as [_ [l [Hl [Hok _]]]].
  exists l. split; [exact Hl|]. apply Hok. vm_compute. discriminate.
Defined.

(** C6, counterexample: no category flag is set, but a mutual [.root]
    file has size 0 in the second directory; [file_sizes] raises
    [ZeroDivisionError] and [rel_val] stops before any category block. *)
Lemma rel_val_sim_dirs_zero_size_raises :
  any_category (demo_args "sim1" "sim2") = false /\
  file_size zero_size_env "sim2/a.root" = 0%Z /\
  fst (rel_val zero_size_env (demo_args "sim1" "sim2") st0) = Raise /\
  entered (st_log (snd (rel_val zero_size_env (demo_args "sim1" "sim2") st0))) = [].
Proof. repeat split; vm_compute; reflexivity. Qed.

(** C7 (Orchestrator [rel_val], INIT): [is_sim_dir] puts the path into a
    [glob] pattern, where [[...]] is a character class.  The directory
    [run[1]] is empty, yet [glob("run[1]/pipeline*")] finds
    [run1/pipeline_metrics.json]: the input pair ([run[1]], [run[1]]) is
    taken for two simulation directories, so [rel_val] creates the output
    directory, runs the directory comparison and returns [None], not a
    non-zero value. *)
Theorem rel_val_glob_bracket_dir :
  fs0 bracket_env "run[1]" = NDir [] /\
  isfile bracket_env "run[1]" = false /\
  glob bracket_env "run[1]/pipeline*" = ["run1/pipeline_metrics.json"] /\
  is_sim_dir bracket_env "run[1]" = true /\
  (exists l, st_log (snd (rel_val bracket_env (demo_args "run[1]" "run[1]") st0))
               = Makedirs "out" :: l) /\
  fst (rel_val bracket_env (demo_args "run[1]" "run[1]") st0) = Ok PyNone.
Proof.
  repeat split; try (vm_compute; reflexivity).
  eexists. vm_compute. reflexivity.
Qed.

(** C8, counterexample: for sizes [[4, 3]] the quotient [1 / 3] is
    rounded to the float nearest to [1/3], which is the threshold
    [float(1/3)]; that float is below [1/3], so the exact ratio exceeds
    the threshold while the pair is not flagged. *)
Lemma exceeding_difference_thresh_float_quotient :
  (float_of_Q (1#3) < Z.abs (4 - 3) # 3)%Q /\
  exceeding_difference_thresh [4; 3]%Z (float_of_Q (1#3)) = Some [].
Proof. split; vm_compute; reflexivity. Qed.

(** C8 (amended): for [[100, 105, 300]] and the float [0.1] exactly the
    pairs (0,2) and (1,2) are flagged; whenever the call returns, a pair
    [(i, j)], [i < j], is flagged exactly when the correctly rounded float
    quotient [|size_i - size_j| / size_j] exceeds the threshold. *)
Theorem exceeding_difference_thresh_pairs :
  exceeding_difference_thresh [100; 105; 300]%Z (float_of_Q (1#10)) = Some [(0, 2); (1, 2)]%nat /\
  (forall sizes t r,
     exceeding_difference_thresh sizes t = Some r ->
     forall i j, In (i, j) r <->
       (i < j < List.length sizes)%nat /\
       (t < float_div (Z.abs (nth i sizes 0%Z - nth j sizes 0%Z)) (nth j sizes 0%Z))%Q).
Proof. split; [vm_compute; reflexivity|apply edt_members]. Qed.

Lemma exceeding_difference_thresh_pairs_witness :
  ~ In (0, 1)%nat [(0, 2); (1, 2)]%nat /\
  (In (0, 1)%nat [(0, 2); (1, 2)]%nat <->
     (0 < 1 < 3)%nat /\
     (float_of_Q (1#10) <
        float_div (Z.abs (nth 0 [100; 105; 300]%Z 0%Z - nth 1 [100; 105; 300]%Z 0%Z))
                  (nth 1 [100; 105; 300]%Z 0%Z))%Q).
Proof.
  split; [simpl; intuition discriminate|].
  apply (proj2 exceeding_difference_thresh_pairs [100; 105; 300]%Z (float_of_Q (1#10)));
    vm_compute; reflexivity.
Defined.

(** C9 ([make_generic_histograms_from_chain]): only side A's [Draw] is
    checked.  With side B failing on field [x] ([Draw] returns [-1]), [x]
    is still written to both output files, without a message; the
    side-A failure on the same field makes the loop skip it. *)
Theorem make_histograms_side_b_failure_not_skipped :
  chain_draw demo_env ["b.root"] "o2sim" "x>>+x" = (-1)%Z /\
  make_generic_histograms_from_chain demo_env ["a.root"] ["b.root"] "f1.root" "f2.root" "o2sim" st0 =
  (Ok tt, mk_st [] [WriteHist "f1.root" "x"; WriteHist "f2.root" "x";
                    CloseFile "f1.root"; CloseFile "f2.root"]) /\
  chain_draw demo_env ["b.root"] "o2sim" "x>>x" = (-1)%Z /\
  make_generic_histograms_from_chain demo_env ["b.root"] ["a.root"] "f1.root" "f2.root" "o2sim" st0 =
  (Ok tt, mk_st [] [CloseFile "f1.root"; CloseFile "f2.root"]).
Proof. repeat split; reflexivity. Qed.

(** C10 (PathSetMatcher): for no directories [find_mutual_files] returns
    the empty list. *)
Theorem find_mutual_files_no_dirs (E : env) (glob_pattern : string) (grep : list string) :
  find_mutual_files E [] glob_pattern grep = [].
Proof. reflexivity. Qed.

(* ------------------------------------------------------------------ *)
(** ** Further properties of the driver *)

(** *** Sorting, deduplication, intersection *)

Definition str_le (x y : string) : Prop := String.leb x y = true.

Lemma insert_sorted_perm (x : string) (l : list string) :
  Permutation (insert_sorted x l) (x :: l).
Proof.
  induction l as [|y l IH]; simpl; [reflexivity|].
  destruct (String.leb x y); [reflexivity|].
  rewrite IH. apply perm_swap.
Qed.

Lemma sort_strings_perm (l : list string) : Permutation (sort_strings l) l.
Proof.
  induction l as [|x l IH]; simpl; [reflexivity|].
  rewrite insert_sorted_perm. apply perm_skip. exact IH.
Qed.

Lemma in_sort_strings (x : string) (l : list string) : In x (sort_strings l) <-> In x l.
Proof.
  split; apply Permutation_in; [|symmetry]; apply sort_strings_perm.
Qed.

Lemma insert_sorted_hd (x y : string) (l : list string) :
  HdRel str_le y l -> str_le y x -> HdRel str_le y (insert_sorted x l).
Proof.
  intros Hl Hyx. destruct l as [|z l]; simpl; [constructor; exact Hyx|].
  destruct (String.leb x z); constructor; [exact Hyx|]. now inversion Hl.
Qed.

Lemma insert_sorted_sorted (x : string) (l : list string) :
  Sorted str_le l -> Sorted str_le (insert_sorted x l).
Proof.
  induction 1 as [|y l Hl IH Hhd]; simpl; [repeat constructor|].
  destruct (String.leb x y) eqn:E.
  - constructor; [constructor; assumption|constructor; exact E].
  - constructor; [exact IH|]. apply insert_sorted_hd; [exact Hhd|].
    destruct (String.leb_total x y) as [H|H]; [congruence|exact H].
Qed.

Lemma sort_strings_sorted (l : list string) : Sorted str_le (sort_strings l).
Proof.
  induction l as [|x l IH]; simpl; [constructor|]. apply insert_sorted_sorted, IH.
Qed.

Lemma str_in_iff (x : string) (l : list string) : existsb (String.eqb x) l = true <-> In x l.
Proof.
  rewrite existsb_exists. split.
  - intros [y [Hy E]]. apply String.eqb_eq in E. subst. exact Hy.
  - intros H. exists x. split; [exact H|apply String.eqb_refl].
Qed.

Lemma in_dedup (x : string) (l : list string) : In x (dedup l) <-> In x l.
Proof.
  induction l as [|y l IH]; simpl; [reflexivity|].
  destruct (existsb (String.eqb y) l) eqn:E.
  - rewrite IH. apply str_in_iff in E. split; [tauto|]. intros [<-|H]; tauto.
  - simpl. rewrite IH. reflexivity.
Qed.

Lemma dedup_nodup (l : list string) : NoDup (dedup l).
Proof.
  induction l as [|y l IH]; simpl; [constructor|].
  destruct (existsb (String.eqb y) l) eqn:E; [exact IH|].
  constructor; [|exact IH]. rewrite in_dedup. intros H.
  apply str_in_iff in H. congruence.
Qed.

Lemma in_set_inter (x : string) (a b : list string) :
  In x (set_inter a b) <-> In x a /\ In x b.
Proof.
  unfold set_inter. rewrite in_dedup, filter_In, str_in_iff. reflexivity.
Qed.

Lemma in_fold_inter (x : string) (rest : list (list string)) (acc : list string) :
  In x (fold_left set_inter rest acc) <-> In x acc /\ forall r, In r rest -> In x r.
Proof.
  revert acc. induction rest as [|r rest IH]; intros acc; simpl.
  - split; [tauto|]. intros [H _]. exact H.
  - rewrite IH, in_set_inter. split.
    + intros [[Ha Hr] Hall]. split; [exact Ha|]. intros r' [<-|H]; auto.
    + intros [Ha Hall]. auto.
Qed.

Lemma fold_inter_nodup (rest : list (list string)) (acc : list string) :
  rest <> [] -> NoDup (fold_left set_inter rest acc).
Proof.
  revert acc. induction rest as [|r rest IH]; intros acc H; [congruence|].
  simpl. destruct rest as [|r' rest'].
  - apply dedup_nodup.
  - apply IH. discriminate.
Qed.

(** The relative names [find_mutual_files] sees under one directory. *)
Definition listing (E : env) (glob_pattern d : string) : list string :=
  map (strip_dir d) (glob_rec E d glob_pattern).

Lemma in_listing_sorted (E : env) (pat d x : string) :
  In x (map (strip_dir d) (sort_strings (glob_rec E d pat))) <-> In x (listing E pat d).
Proof.
  unfold listing. split; apply Permutation_in; apply Permutation_map;
    [|symmetry]; apply sort_strings_perm.
Qed.

(** *** Mutual files *)

(** [find_mutual_files] always returns a list sorted in string order. *)
Theorem find_mutual_files_sorted (E : env) (dirs : list string) (pat : string)
  (grep : list string) :
  Sorted str_le (find_mutual_files E dirs pat grep).
Proof.
  unfold find_mutual_files. destruct dirs as [|d ds]; simpl; [constructor|].
  apply sort_strings_sorted.
Qed.

(** For a non-empty list of directories, a name is in the result of
    [find_mutual_files] exactly when it is in the listing of every
    directory and, when filters are given, contains one of them. *)
Theorem find_mutual_files_members (E : env) (d : string) (ds : list string) (pat : string)
  (grep : list string) (x : string) :
  In x (find_mutual_files E (d :: ds) pat grep) <->
  (forall d', In d' (d :: ds) -> In x (listing E pat d')) /\
  (grep = [] \/ exists g, In g grep /\ contains g x = true).
Proof.
  unfold find_mutual_files. simpl.
  rewrite in_sort_strings.
  assert (Hi : In x (fold_left set_inter
                       (map (fun d0 => map (strip_dir d0) (sort_strings (glob_rec E d0 pat))) ds)
                       (map (strip_dir d) (sort_strings (glob_rec E d pat))))
               <-> forall d', In d' (d :: ds) -> In x (listing E pat d')).
  { rewrite in_fold_inter, in_listing_sorted. split.
    - intros [H0 Hall] d' [<-|Hd']; [exact H0|].
      rewrite <- in_listing_sorted. apply Hall. apply in_map_iff. eauto.
    - intros Hall. split; [apply Hall; left; reflexivity|].
      intros r Hr. apply in_map_iff in Hr as [d' [<- Hd']].
      apply in_listing_sorted. apply Hall. right. exact Hd'. }
  destruct grep as [|g gs].
  - rewrite Hi. split; [tauto|]. intros [H _]. exact H.
  - rewrite in_flat_map. split.
    + intros [g' [Hg Hx]]. apply filter_In in Hx as [Hx Hc]. split; [apply Hi, Hx|].
      right. eauto.
    + intros [Hall [H|[g' [Hg Hc]]]]; [discriminate|].
      exists g'. split; [exact Hg|]. apply filter_In. split; [apply Hi, Hall|exact Hc].
Qed.

(** Without filters and with at least two directories, [find_mutual_files]
    returns no name twice. *)
Theorem find_mutual_files_nodup (E : env) (d1 d2 : string) (ds : list string) (pat : string) :
  NoDup (find_mutual_files E (d1 :: d2 :: ds) pat []).
Proof.
  unfold find_mutual_files. cbn [map].
  eapply Permutation_NoDup; [symmetry; apply sort_strings_perm|].
  apply fold_inter_nodup. discriminate.
Qed.

(** *** Relative names and [join] *)

Lemma str_length_app (d s : string) :
  String.length (d ++ s)%string = (String.length d + String.length s)%nat.
Proof. induction d as [|c d IH]; simpl; [reflexivity|]. rewrite IH. reflexivity. Qed.

Lemma substring_all (s : string) : String.substring 0 (String.length s) s = s.
Proof. induction s as [|c s IH]; simpl; [reflexivity|]. rewrite IH. reflexivity. Qed.

Lemma drop_chars_app (d s : string) : drop_chars (String.length d) (d ++ s)%string = s.
Proof.
  unfold drop_chars. rewrite str_length_app, Nat.add_sub_swap, Nat.sub_diag by lia.
  simpl. induction d as [|c d IH]; simpl; [apply substring_all|exact IH].
Qed.

Lemma lstrip_no_slash (r : string) : startswith r "/" = false -> lstrip_slash r = r.
Proof.
  intros H. destruct r as [|c r]; simpl; [reflexivity|].
  destruct (Ascii.eqb c "/"%char) eqn:E; [|reflexivity].
  apply Ascii.eqb_eq in E. subst. unfold startswith in H. simpl in H.
  destruct r; discriminate H.
Qed.

(** A name [r] relative to a directory [d] survives the round trip the
    driver makes through it: [glob] yields [join(d, r)], [find_mutual_files]
    strips [d] back off, and [rel_val_histograms] rebuilds the path with
    [join(d, r)]; this holds when [d] is non-empty and does not end in
    ["/"] and [r] does not start with ["/"]. *)
Theorem strip_dir_join (d r : string) :
  d <> ""%string -> ends_with_slash d = false -> startswith r "/" = false ->
  strip_dir d (join d r) = r /\ join d (strip_dir d (join d r)) = join d r.
Proof.
  intros Hd He Hr.
  assert (Hj : join d r = (d ++ "/" ++ r)%string).
  { unfold join. rewrite Hr, He. destruct (String.eqb_spec d ""); [contradiction|reflexivity]. }
  assert (Hs : strip_dir d (join d r) = r).
  { unfold strip_dir. rewrite Hj, drop_chars_app. simpl. apply lstrip_no_slash, Hr. }
  rewrite Hs. split; reflexivity.
Qed.

Lemma strip_dir_join_witness :
  strip_dir "sim1" (join "sim1" "tf1/o2sim_HitsITS.root") = "tf1/o2sim_HitsITS.root"%string /\
  join "sim1" (strip_dir "sim1" (join "sim1" "tf1/o2sim_HitsITS.root"))
    = join "sim1" "tf1/o2sim_HitsITS.root".
Proof. apply strip_dir_join; [discriminate|reflexivity|reflexivity]. Defined.

(** *** The size report *)









(** *** The summary of flagged verdicts *)

Definition readable (E : env) (p : string) : bool :=
  match read_test_summary E p with Some _ => true | None => false end.

Definition flagged (E : env) (p : string) : bool :=
  match read_test_summary E p with
  | Some r => existsb (nonempty_for r) default_severity
  | None => false
  end.

Lemma filter_severe_result (E : env) (ps : list string) (s : st) :
  fst (filter_severe E ps s) =
  if forallb (readable E) ps then Ok (filter (flagged E) ps) else Raise.
Proof.
  revert s. induction ps as [|p ps IH]; intros s; simpl; [reflexivity|].
  unfold bind at 1.
  destruct (read_test_summary E p) as [r|] eqn:Hr.
  - assert (readable E p = true) as -> by (unfold readable; rewrite Hr; reflexivity).
    assert (flagged E p = existsb (nonempty_for r) default_severity) as ->
      by (unfold flagged; rewrite Hr; reflexivity).
    pose proof (has_severity_result E p default_severity r s Hr) as H.
    destruct (has_severity E p default_severity s) as [b s1]. simpl in H. subst b.
    simpl. unfold bind. specialize (IH s1).
    destruct (filter_severe E ps s1) as [x s2]. simpl in *. subst x.
    destruct (forallb (readable E) ps); reflexivity.
  - assert (readable E p = false) as -> by (unfold readable; rewrite Hr; reflexivity).
    unfold has_severity. rewrite Hr. reflexivity.
Qed.

Lemma dict_get_set (d : tsummary) (k k' : string) (v : list string) :
  dict_get (dict_set d k v) k' = if (k' =? k)%string then Some v else dict_get d k'.
Proof.
  induction d as [|[k0 v0] d IH]; simpl.
  - reflexivity.
  - destruct (String.eqb_spec k k0) as [<-|Hne]; simpl.
    + destruct (k' =? k)%string; reflexivity.
    + rewrite IH. destruct (String.eqb_spec k' k) as [->|]; [|reflexivity].
      destruct (String.eqb_spec k k0); [contradiction|reflexivity].
Qed.

(** [add_to_summary(paths, key, summary_dict)] raises as soon as one of
    the verdict files cannot be read; otherwise it sets [key] to the paths
    whose verdict has a non-empty [BAD] or [CRIT_NC] list, in the given
    order, and leaves every other key as it was. *)
Theorem add_to_summary_spec (E : env) (ps : list string) (key : string) (d : tsummary) (s : st) :
  match fst (add_to_summary E ps key d s) with
  | Ok d' => forallb (readable E) ps = true /\
             forall k', dict_get d' k' =
                        if (k' =? key)%string then Some (filter (flagged E) ps) else dict_get d k'
  | Raise => forallb (readable E) ps = false
  end.
Proof.
  unfold add_to_summary, bind. pose proof (filter_severe_result E ps s) as H.
  destruct (filter_severe E ps s) as [[l|] s1]; simpl in *;
    destruct (forallb (readable E) ps); try discriminate; [|reflexivity].
  injection H as ->. split; [reflexivity|]. intros k'. apply dict_get_set.
Qed.

(** *** Histogram files *)

Lemma in_branch_names (leaves : list (string * string)) (b : string) :
  In b (branch_names leaves) <-> exists ty, In (b, ty) leaves /\ In ty accepted_types.
Proof.
  unfold branch_names. rewrite in_sort_strings, in_map_iff. split.
  - intros [[b' ty] [<- Hin]]. apply filter_In in Hin as [Hin Hty]. cbn [snd] in Hty.
    apply str_in_iff in Hty. eauto.
  - intros [ty [Hin Hty]]. exists (b, ty). split; [reflexivity|]. apply filter_In.
    split; [exact Hin|]. cbn [snd]. apply str_in_iff, Hty.
Qed.

(** The fields the loops go through are the leaves of accepted numeric
    type found on both sides, in whatever order the set intersection
    yields them when the two leaf lists differ. *)
Lemma common_branches_members (E : env) (f1 f2 : list string) (t b : string) :
  In b (common_branches E f1 f2 t) <->
  (exists ty, In (b, ty) (chain_leaves E f1 t) /\ In ty accepted_types) /\
  (exists ty, In (b, ty) (chain_leaves E f2 t) /\ In ty accepted_types).
Proof.
  unfold common_branches. rewrite <- !in_branch_names.
  destruct (list_eq_dec string_dec _ _) as [Heq|_].
  - rewrite <- Heq. tauto.
  - split.
    + intros H. apply in_set_inter. exact (Permutation_in _ (inter_order_perm E _ _) H).
    + intros H. apply (Permutation_in _ (Permutation_sym (inter_order_perm E _ _))).
      apply in_set_inter. exact H.
Qed.

(** When the two output files open and differ, side A's output receives
    the histogram [h] exactly when [h] is [b.replace(".", "_")] for a
    field [b] that is a leaf of accepted numeric type in both chains and
    whose side-A [Draw] does not return [-1]. *)
Theorem make_histograms_fields (E : env) f1 f2 o1 o2 t s (h : string) :
  root_open_ok E o1 = true -> root_open_ok E o2 = true -> o1 <> o2 ->
  (In (WriteHist o1 h) (st_log (snd (make_generic_histograms_from_chain E f1 f2 o1 o2 t s))) <->
   In (WriteHist o1 h) (st_log s) \/
   exists b, h = replace_dot b /\
     (exists ty, In (b, ty) (chain_leaves E f1 t) /\ In ty accepted_types) /\
     (exists ty, In (b, ty) (chain_leaves E f2 t) /\ In ty accepted_types) /\
     draw_ok E f1 t b = true).
Proof.
  intros H1 H2 Hne. destruct (make_histograms_run E f1 f2 o1 o2 t s H1 H2) as [pre [Hpre ->]].
  cbn [snd st_log]. rewrite !in_app_iff.
  assert (Hpre' : ~ In (WriteHist o1 h) pre) by (destruct Hpre as [->| ->]; simpl; intuition discriminate).
  assert (Hb : ~ In (WriteHist o1 h) (map (fun b => WriteHist o2 (replace_dot b))
                                        (filter (draw_ok E f1 t) (common_branches E f1 f2 t)))).
  { intros Hin. apply in_map_iff in Hin as [b [Heq _]]. injection Heq as Heq _. congruence. }
  assert (Hc : ~ In (WriteHist o1 h) [CloseFile o1; CloseFile o2]) by (simpl; intuition discriminate).
  rewrite in_map_iff. split.
  - intros [H|[H|[[b [Heq Hb']]|[H|H]]]]; try tauto.
    right. injection Heq as <-. apply filter_In in Hb' as [Hb' Hd].
    apply common_branches_members in Hb'. exists b. tauto.
  - intros [H|[b [-> [Ha [Hb' Hd]]]]]; [tauto|].
    right; right; left. exists b. split; [reflexivity|]. apply filter_In.
    split; [apply common_branches_members; tauto|exact Hd].
Qed.

Lemma make_histograms_fields_witness :
  In (WriteHist "f1.root" "x")
     (st_log (snd (make_generic_histograms_from_chain demo_env ["a.root"] ["a.root"]
                     "f1.root" "f2.root" "o2sim" st0))) /\
  (In (WriteHist "f1.root" "x")
     (st_log (snd (make_generic_histograms_from_chain demo_env ["a.root"] ["a.root"]
                     "f1.root" "f2.root" "o2sim" st0))) <->
   In (WriteHist "f1.root" "x") (st_log st0) \/
   exists b, "x"%string = replace_dot b /\
     (exists ty, In (b, ty) (chain_leaves demo_env ["a.root"] "o2sim") /\ In ty accepted_types) /\
     (exists ty, In (b, ty) (chain_leaves demo_env ["a.root"] "o2sim") /\ In ty accepted_types) /\
     draw_ok demo_env ["a.root"] "o2sim" b = true).
Proof.
  split; [vm_compute; auto|].
  apply make_histograms_fields; [reflexivity|reflexivity|discriminate].
Defined.

(** When both output files open, side B's file receives the same
    histograms as side A's, in the same order, and the call returns. *)
Theorem make_histograms_same_names (E : env) f1 f2 o1 o2 t s :
  root_open_ok E o1 = true -> root_open_ok E o2 = true ->
  fst (make_generic_histograms_from_chain E f1 f2 o1 o2 t s) = Ok tt /\
  exists pre names,
    st_log (snd (make_generic_histograms_from_chain E f1 f2 o1 o2 t s)) =
    st_log s ++ pre ++ map (WriteHist o1) names ++ map (WriteHist o2) names
             ++ [CloseFile o1; CloseFile o2] /\
    (pre = [] \/ pre = [branch_warning]).
Proof.
  intros H1 H2. destruct (make_histograms_run E f1 f2 o1 o2 t s H1 H2) as [pre [Hpre ->]].
  split; [reflexivity|]. exists pre, (map replace_dot (filter (draw_ok E f1 t) (common_branches E f1 f2 t))).
  rewrite !map_map. split; [reflexivity|exact Hpre].
Qed.

Lemma make_histograms_same_names_witness :
  fst (make_generic_histograms_from_chain demo_env ["a.root"] ["a.root"] "f1.root" "f2.root" "o2sim" st0)
    = Ok tt.
Proof.
  apply (make_histograms_same_names demo_env ["a.root"] ["a.root"] "f1.root" "f2.root" "o2sim" st0);
    reflexivity.
Defined.

Lemma bind_fst_raise {A B} (m : M A) (k : A -> M B) (s : st) :
  (forall a s', m s = (Ok a, s') -> fst (k a s') = Raise) -> fst (bind m k s) = Raise.
Proof.
  intros H. unfold bind. destruct (m s) as [[a|] s'] eqn:Hm; [exact (H a s' eq_refl)|reflexivity].
Qed.

(** If side A's output file cannot be opened, the call raises (a method
    is called on [None]), whatever the fields and the second file. *)
Theorem make_histograms_first_open_fails (E : env) f1 f2 o1 o2 t s :
  root_open_ok E o1 = false ->
  fst (make_generic_histograms_from_chain E f1 f2 o1 o2 t s) = Raise.
Proof.
  intros H1. unfold make_generic_histograms_from_chain.
  apply bind_fst_raise; intros bn s1 _.
  apply bind_fst_raise; intros of1 s2 Hof1.
  unfold load_root_file in Hof1. rewrite H1 in Hof1.
  unfold bind, emit, ret in Hof1. injection Hof1 as <- _.
  apply bind_fst_raise; intros kept s3 _.
  apply bind_fst_raise; intros of2 s4 _.
  apply bind_fst_raise; intros [] s5 _.
  reflexivity.
Qed.

Lemma make_histograms_first_open_fails_witness :
  fst (make_generic_histograms_from_chain
         (mk_env (fs0 demo_env) (glob_rec demo_env) (abspath demo_env) (file_size demo_env)
            (read_test_summary demo_env) (child_status demo_env) (chain_leaves demo_env)
            (chain_draw demo_env) (fun _ => false) (O2DPG_ROOT demo_env)
            (can_makedirs demo_env) (write_ok demo_env) (float_repr demo_env)
            (inter_order demo_env) (inter_order_perm demo_env))
         ["a.root"] ["a.root"] "f1.root" "f2.root" "o2sim" st0) = Raise.
Proof. apply make_histograms_first_open_fails. reflexivity. Defined.

(** *** The processes started *)















(** *** Entry point and directories *)

(** Given two regular files, [rel_val] creates the output directory if
    needed and then fails: [func(args)] calls [rel_val_files] with one
    argument instead of four. *)
Theorem rel_val_two_files (E : env) (a : args) (s : st) :
  isfile E (fst (input a)) = true -> isfile E (snd (input a)) = true ->
  rel_val E a s = (Raise, snd (ensure_dir E (output a) s)).
Proof.
  destruct a as [[i0 i1] ? ? ? ? ? ? ? ? ? ? ? ? ?]. simpl. intros H0 H1.
  unfold rel_val. simpl. rewrite H0, H1.
  unfold is_sim_dir, isdir, isfile in *. destruct (fs0 E i0); try discriminate. simpl.
  unfold bind. destruct (ensure_dir E _ s) as [[[]|] s1]; reflexivity.
Qed.

Lemma rel_val_two_files_witness :
  isfile demo_env "a.txt" = true /\
  rel_val demo_env (demo_args "a.txt" "a.txt") st0 = (Raise, mk_st ["out"] [Makedirs "out"]).
Proof.
  split; [reflexivity|].
  apply (rel_val_two_files demo_env (demo_args "a.txt" "a.txt") st0); reflexivity.
Defined.

(** When the inputs are neither two regular files nor two paths that
    [is_sim_dir] accepts, [rel_val] prints the error message and returns
    1, and nothing else happens: no directory is created and the log
    holds only that message. *)
Theorem rel_val_invalid_input (E : env) (a : args) (s : st) (i0 i1 : string) :
  input a = (i0, i1) ->
  (isfile E i0 && isfile E i1)%bool = false ->
  (is_sim_dir E i0 && is_sim_dir E i1)%bool = false ->
  rel_val E a s = (Ok (PyInt 1), mk_st (st_dirs s) (st_log s ++ [Print bad_input_msg])).
Proof.
  intros Hin Hf Hd. unfold rel_val. rewrite Hin, Hf, Hd. reflexivity.
Qed.

Lemma rel_val_invalid_input_witness :
  rel_val demo_env (demo_args "a.txt" "sim1") st0 =
  (Ok (PyInt 1), mk_st [] [Print bad_input_msg]).
Proof.
  apply (rel_val_invalid_input demo_env (demo_args "a.txt" "sim1") st0 "a.txt" "sim1");
    reflexivity.
Defined.


(** *** The summary written by [rel_val_sim_dirs] *)

(** The key of [summary_dict] each category block sets. *)
Definition cat_key (c : category) : string :=
  match c with
  | Hits => "hist" | TPCTracks => "tpctracks" | Kine => "kine"
  | Analysis => "analysis" | QC => "qc"
  end.

Lemma bind_ok_inv {A B} (m : M A) (k : A -> M B) (s : st) (b : B) :
  fst (bind m k s) = Ok b -> exists a s', m s = (Ok a, s') /\ fst (k a s') = Ok b.
Proof.
  unfold bind. destruct (m s) as [[a|] s']; [|discriminate]. intros H. exists a, s'. auto.
Qed.

Ltac peel H :=
  match type of H with
  | fst (bind _ _ _) = _ =>
      let e := fresh "Hm" in
      apply bind_ok_inv in H; destruct H as [? [? [e H]]]; cbv beta zeta in H; peel H
  | _ => idtac
  end.

Lemma dict_set_keys (d : tsummary) k v :
  ~ In k (map fst d) -> map fst (dict_set d k v) = map fst d ++ [k].
Proof.
  induction d as [|[k0 v0] d IH]; simpl; intros Hn; [reflexivity|].
  destruct (String.eqb_spec k k0) as [->|]; [exfalso; auto|]. simpl. rewrite IH; auto.
Qed.

(** [m] ends in [summary_dict[key] = ...] on [sd]. *)
Definition adds_key (m : M tsummary) (sd : tsummary) (key : string) : Prop :=
  forall s sd' s', m s = (Ok sd', s') -> exists l, sd' = dict_set sd key l.

Lemma add_to_summary_adds_key (E : env) ps key sd :
  forall s sd', fst (add_to_summary E ps key sd s) = Ok sd' -> exists l, sd' = dict_set sd key l.
Proof.
  intros s sd' H. unfold add_to_summary in H. peel H. unfold ret in H. simpl in H.
  injection H as <-. eauto.
Qed.

Lemma blocks_add_key (E : env) d1 d2 od a sd :
  adds_key (hits_block E d1 d2 od a sd) sd "hist" /\
  adds_key (tpctracks_block E d1 d2 od a sd) sd "tpctracks" /\
  adds_key (kine_block E d1 d2 od a sd) sd "kine" /\
  adds_key (analysis_block E d1 d2 od a sd) sd "analysis" /\
  adds_key (qc_block E d1 d2 od a sd) sd "qc".
Proof.
  repeat split; intros s sd' s' H;
    match type of H with ?m s = _ =>
      assert (H' : fst (m s) = Ok sd') by (rewrite H; reflexivity) end;
    clear H;
    unfold hits_block, tpctracks_block, kine_block, analysis_block, qc_block in H';
    peel H'; eapply add_to_summary_adds_key; exact H'.
Qed.

Lemma step_keys (m : M tsummary) (b : bool) sd key s sd' s' :
  adds_key m sd key -> ~ In key (map fst sd) ->
  (if b then m else ret sd) s = (Ok sd', s') ->
  map fst sd' = map fst sd ++ (if b then [key] else []).
Proof.
  intros Hk Hn H. destruct b.
  - destruct (Hk s sd' s' H) as [l ->]. apply dict_set_keys, Hn.
  - unfold ret in H. injection H as <- _. rewrite app_nil_r. reflexivity.
Qed.

(** When [rel_val_sim_dirs] gets through, the flags it ends with are
    those of [args], with all five switched on when none was given, and
    [summary_dict] has one key per selected category, in the order
    hits, tpctracks, kine, analysis, qc. *)
Theorem rel_val_sim_dirs_summary_keys (E : env) (a a' : args) (sd : tsummary) (s : st) :
  fst (rel_val_sim_dirs E a s) = Ok (a', sd) ->
  a' = enable_all a /\ map fst sd = map cat_key (selected (enable_all a)).
Proof.
  intros H. unfold rel_val_sim_dirs in H. destruct (input a) as [d1 d2].
  peel H. unfold ret in H. simpl in H. injection H as <- <-. split; [reflexivity|].
  set (a0 := enable_all a) in *.
  destruct (blocks_add_key E d1 d2 (output a) a0 []) as [K1 _].
  apply (step_keys _ _ _ _ _ _ _ K1 (fun h => h)) in Hm1.
  destruct (blocks_add_key E d1 d2 (output a) a0 x3) as [_ [K2 _]].
  apply (step_keys _ _ _ _ _ _ _ K2) in Hm2;
    [|rewrite Hm1; destruct (with_hits a0); simpl; intuition discriminate].
  destruct (blocks_add_key E d1 d2 (output a) a0 x5) as [_ [_ [K3 _]]].
  apply (step_keys _ _ _ _ _ _ _ K3) in Hm3;
    [|rewrite Hm2, Hm1; destruct (with_hits a0), (with_tpctracks a0); simpl; intuition discriminate].
  destruct (blocks_add_key E d1 d2 (output a) a0 x7) as [_ [_ [_ [K4 _]]]].
  apply (step_keys _ _ _ _ _ _ _ K4) in Hm4;
    [|rewrite Hm3, Hm2, Hm1; destruct (with_hits a0), (with_tpctracks a0), (with_kine a0);
      simpl; intuition discriminate].
  destruct (blocks_add_key E d1 d2 (output a) a0 x9) as [_ [_ [_ [_ K5]]]].
  apply (step_keys _ _ _ _ _ _ _ K5) in Hm5;
    [|rewrite Hm4, Hm3, Hm2, Hm1;
      destruct (with_hits a0), (with_tpctracks a0), (with_kine a0), (with_analysis a0);
      simpl; intuition discriminate].
  rewrite Hm5, Hm4, Hm3, Hm2, Hm1. unfold selected.
  destruct (with_hits a0), (with_tpctracks a0), (with_kine a0), (with_analysis a0), (with_qc a0);
    reflexivity.
Qed.

Lemma rel_val_sim_dirs_summary_keys_witness :
  fst (rel_val_sim_dirs demo_env (demo_args "sim1" "sim2") st_out) =
    Ok (enable_all (demo_args "sim1" "sim2"),
        [("hist", []); ("tpctracks", []); ("kine", []); ("analysis", []); ("qc", [])]) /\
  map fst [("hist", @nil string); ("tpctracks", []); ("kine", []); ("analysis", []); ("qc", [])]
    = map cat_key (selected (enable_all (demo_args "sim1" "sim2"))).
Proof.
  split; [vm_compute; reflexivity|].
  refine (proj2 (rel_val_sim_dirs_summary_keys demo_env (demo_args "sim1" "sim2") _ _ st_out _)).
  vm_compute. reflexivity.
Defined.

Lemma find_mutual_files_members_witness :
  In "o2sim_HitsITS.root" (find_mutual_files demo_env ["d1"; "d2"] "*.root" ["ITS"]) /\
  (forall d', In d' ["d1"; "d2"] -> In "o2sim_HitsITS.root" (listing demo_env "*.root" d')).
Proof.
  split; [vm_compute; auto|].
  apply (proj1 (proj1 (find_mutual_files_members demo_env "d1" ["d2"] "*.root" ["ITS"]
                         "o2sim_HitsITS.root") ltac:(vm_compute; auto))).
Defined.
